(** * The mpv session controller of media-server

    A shallow embedding of [src/mpv_controller.py]: the [MPVController]
    class, the two operating-system objects it drives (the filesystem path
    of the IPC socket and the table of launched player processes) and the
    JSON exchange with the player.

    Python methods become computations of a state-and-exception monad over
    one record [State], which holds the controller's attributes together
    with the part of the outside world the controller can see.  What the
    outside world does while the controller is blocked (in [time.sleep], in
    [Popen.wait], in a socket exchange) is read from a script of [Tick]s
    carried by the state, so that a statement quantified over all states is
    quantified over all behaviours of the player.

    Two things are taken as given throughout.  Every blocking call ends: a
    socket exchange is refused, or the player answers or closes the
    connection; the code sets no timeout on the socket, and a player that
    keeps the connection open in silence would hold the caller for ever.
    And [subprocess.Popen] finds its executable and returns at once. *)

From Stdlib Require Import ZArith Floats.SpecFloat.
From stdpp Require Import base gmap strings list pretty sorting.

Set Warnings "-register-all".
Open Scope Z_scope.
Open Scope string_scope.

(** ** Python values *)

(** The values [json.loads] produces: [None], [bool], [int], [float], [str],
    [list] and [dict].  A [dict] is kept as the list of its items, keys
    distinct; a [float] as the IEEE-754 datum it denotes. *)
Inductive json :=
  | JNull
  | JBool (b : bool)
  | JInt (z : Z)
  | JFloat (f : spec_float)
  | JStr (s : string)
  | JArr (l : list json)
  | JObj (kvs : list (string * json)).

(** The exceptions that can leave a controller method.  [RuntimeError] is the
    only one the source raises itself; the others come from the filesystem,
    from the socket, from [bytes.decode] and [json.loads], from attribute
    access and from the built-in conversions. *)
Inductive exn :=
  | RuntimeError (msg : string)
  | RecursionError
  | FileNotFoundError
  | IsADirectoryError
  | PermissionError
  | OSError
  | ConnectionRefusedError
  | UnicodeDecodeError
  | JSONDecodeError
  | TimeoutExpired
  | AttributeError
  | TypeError
  | ValueError
  | OverflowError.

(** The spec's names for the two errors the controller raises. *)
Definition ChannelUnavailable : exn := RuntimeError "IPC socket absent".
Definition LaunchTimeout : exn :=
  RuntimeError "IPC socket not found after starting mpv".

(** [except RuntimeError] also catches its subclass [RecursionError]. *)
Definition is_RuntimeError (e : exn) : bool :=
  match e with RuntimeError _ | RecursionError => true | _ => false end.
Definition is_FileNotFoundError (e : exn) : bool :=
  match e with FileNotFoundError => true | _ => false end.
Definition is_TimeoutExpired (e : exn) : bool :=
  match e with TimeoutExpired => true | _ => false end.

(** Truth value of a Python object, as used by [bool(x)], [x or y] and the
    conditional expression. *)
Definition truthy (v : json) : bool :=
  match v with
  | JNull => false
  | JBool b => b
  | JInt z => negb (Z.eqb z 0)
  | JFloat (S754_zero _) => false
  | JFloat _ => true
  | JStr s => negb (String.eqb s "")
  | JArr l => negb (Nat.eqb (length l) 0)
  | JObj kvs => negb (Nat.eqb (length kvs) 0)
  end.

(** [x or y] *)
Definition py_or (x y : json) : json := if truthy x then x else y.

(** [d.get(key)] on a dict given by its items. *)
Fixpoint dict_get (key : string) (kvs : list (string * json)) : json :=
  match kvs with
  | [] => JNull
  | (k, v) :: rest => if String.eqb k key then v else dict_get key rest
  end.

(** [str(n)] for an [int]. *)
Definition str (n : Z) : string := pretty n.

(** [os.path.basename]: what follows the last slash. *)
Fixpoint basename_from (acc p : string) : string :=
  match p with
  | EmptyString => acc
  | String c rest =>
      if Ascii.eqb c (Ascii.ascii_of_nat 47) then basename_from "" rest
      else basename_from (acc +:+ String c "") rest
  end.
Definition basename (p : string) : string := basename_from "" p.

(** The text of a string literal of the source, given by its bytes. *)
Definition bytes (l : list Z) : string :=
  fold_right (fun n s => String (Ascii.ascii_of_nat (Z.to_nat n)) s) "" l.

(** ** The outside world *)

(** A process launched with [subprocess.Popen]: its command line and its
    return code, [None] while it runs. *)
Record Proc := { args : list string; returncode : option Z }.

(** Why [os.remove] fails other than for a missing path: what is there is a
    directory, the caller may not unlink it, or the operating system refuses
    for another reason (a read-only file system, a component of the path that
    is not a directory), for which [OSError] stands. *)
Inductive RemoveError :=
  | IsADirectory
  | NotPermitted
  | OtherFailure.

Definition remove_error (r : RemoveError) : exn :=
  match r with
  | IsADirectory => IsADirectoryError
  | NotPermitted => PermissionError
  | OtherFailure => OSError
  end.

(** What the outside world can do to what the controller sees: someone
    creates or removes a path, puts there something that [os.remove] fails on
    or a link to nothing, a process ends. *)
Inductive Act :=
  | Touch (path : string)
  | Unlink (path : string)
  | Protect (path : string) (r : RemoveError)
  | Dangle (path : string)
  | Exit (h : nat) (code : Z).

(** Why the bytes received do not give a value: they are not UTF-8
    ([data.decode()] raises), not JSON, or JSON nested too deep for
    [json.loads]. *)
Inductive Undecodable :=
  | NotUTF8
  | NotJSON
  | TooDeep.

Definition decode_error (d : Undecodable) : exn :=
  match d with
  | NotUTF8 => UnicodeDecodeError
  | NotJSON => JSONDecodeError
  | TooDeep => RecursionError
  end.

(** The fate of one socket exchange: the connection is refused, the bytes
    received do not decode, or they decode to a value.  Every exchange is
    taken to end: a peer that accepts the connection and never answers would
    block [recv] for ever, and a call that never returns has no outcome to
    speak of. *)
Inductive Reply :=
  | Refused
  | Garbage (d : Undecodable)
  | Decoded (j : json).

(** One step of the outside world, consumed each time the controller blocks:
    what happens meanwhile and, for an exchange, how the peer answers. *)
Record Tick := { acts : list Act; reply : Reply }.

Definition quiet : Tick := {| acts := []; reply := Refused |}.

(** The controller's attributes ([socket_path], [proc]) and the world.
    [proc] refers to a launched process by its position in [procs].
    [files] holds the paths that exist for [os.path.exists], [dangling] the
    paths at which there is only a link to nothing, which a directory listing
    shows and [os.path.exists] denies, and [protected] the paths at which
    [os.remove] fails, with the reason.
    [outbox] lists the payloads delivered to the player, oldest first.
    [open_conns] counts the sockets open now; [peak_conns] and [peak_live] are
    high-water marks of the open sockets and of the processes alive at once,
    kept to speak about every intermediate point of an operation. *)
Record State := {
  socket_path : string;
  proc : option nat;
  files : gset string;
  protected : gmap string RemoveError;
  dangling : gset string;
  procs : list Proc;
  outbox : list json;
  env : list Tick;
  open_conns : nat;
  peak_conns : nat;
  peak_live : nat
}.

Definition alive (p : Proc) : bool :=
  match returncode p with None => true | Some _ => false end.

(** How many of the processes are running. *)
Definition live (ps : list Proc) : nat := length (filter (fun p => alive p = true) ps).

Definition set_proc (p : option nat) (s : State) : State :=
  {| socket_path := socket_path s; proc := p; files := files s;
     protected := protected s; dangling := dangling s;
     procs := procs s; outbox := outbox s; env := env s;
     open_conns := open_conns s; peak_conns := peak_conns s;
     peak_live := peak_live s |}.
Definition set_files (f : gset string) (s : State) : State :=
  {| socket_path := socket_path s; proc := proc s; files := f;
     protected := protected s; dangling := dangling s;
     procs := procs s; outbox := outbox s; env := env s;
     open_conns := open_conns s; peak_conns := peak_conns s;
     peak_live := peak_live s |}.
Definition set_procs (ps : list Proc) (s : State) : State :=
  {| socket_path := socket_path s; proc := proc s; files := files s;
     protected := protected s; dangling := dangling s;
     procs := ps; outbox := outbox s; env := env s;
     open_conns := open_conns s; peak_conns := peak_conns s;
     peak_live := peak_live s |}.
Definition set_outbox (o : list json) (s : State) : State :=
  {| socket_path := socket_path s; proc := proc s; files := files s;
     protected := protected s; dangling := dangling s;
     procs := procs s; outbox := o; env := env s;
     open_conns := open_conns s; peak_conns := peak_conns s;
     peak_live := peak_live s |}.
Definition set_env (e : list Tick) (s : State) : State :=
  {| socket_path := socket_path s; proc := proc s; files := files s;
     protected := protected s; dangling := dangling s;
     procs := procs s; outbox := outbox s; env := e;
     open_conns := open_conns s; peak_conns := peak_conns s;
     peak_live := peak_live s |}.
Definition set_protected (m : gmap string RemoveError) (s : State) : State :=
  {| socket_path := socket_path s; proc := proc s; files := files s;
     protected := m; dangling := dangling s;
     procs := procs s; outbox := outbox s; env := env s;
     open_conns := open_conns s; peak_conns := peak_conns s;
     peak_live := peak_live s |}.
Definition set_dangling (e : gset string) (s : State) : State :=
  {| socket_path := socket_path s; proc := proc s; files := files s;
     protected := protected s; dangling := e;
     procs := procs s; outbox := outbox s; env := env s;
     open_conns := open_conns s; peak_conns := peak_conns s;
     peak_live := peak_live s |}.
(** The paths at which there is something: what a directory listing shows. *)
Definition listed (s : State) : gset string := files s ∪ dangling s.
(** The world once the entry at [path] is gone. *)
Definition unlinked (path : string) (s : State) : State :=
  set_dangling (dangling s ∖ {[ path ]}) (set_files (files s ∖ {[ path ]}) s).
(** The world once something that exists is at [path]. *)
Definition placed (path : string) (s : State) : State :=
  set_dangling (dangling s ∖ {[ path ]}) (set_files (files s ∪ {[ path ]}) s).
(** Record how many processes are alive, if that is a new maximum. *)
Definition note_live (s : State) : State :=
  {| socket_path := socket_path s; proc := proc s; files := files s;
     protected := protected s; dangling := dangling s;
     procs := procs s; outbox := outbox s; env := env s;
     open_conns := open_conns s; peak_conns := peak_conns s;
     peak_live := Nat.max (peak_live s) (live (procs s)) |}.
(** A socket is opened or closed: the count changes and the maximum follows. *)
Definition set_open_conns (n : nat) (s : State) : State :=
  {| socket_path := socket_path s; proc := proc s; files := files s;
     protected := protected s; dangling := dangling s;
     procs := procs s; outbox := outbox s; env := env s;
     open_conns := n; peak_conns := Nat.max (peak_conns s) n;
     peak_live := peak_live s |}.

(** [MPVController(socket_path)] in a world with the given files and script,
    before any process was launched. *)
Definition init (path : string) (fs : gset string) (script : list Tick) : State :=
  {| socket_path := path; proc := None; files := fs;
     protected := ∅; dangling := ∅; procs := [];
     outbox := []; env := script;
     open_conns := 0; peak_conns := 0; peak_live := 0 |}.

(** A process ends: its return code is set, once. *)
Definition end_in (h : nat) (code : Z) (ps : list Proc) : list Proc :=
  match ps !! h with
  | Some p =>
      if alive p then <[h := {| args := args p; returncode := Some code |}]> ps
      else ps
  | None => ps
  end.
Definition end_proc (h : nat) (code : Z) (s : State) : State :=
  set_procs (end_in h code (procs s)) s.

Definition apply_act (a : Act) (s : State) : State :=
  match a with
  | Touch p => placed p s
  | Unlink p => set_protected (delete p (protected s)) (unlinked p s)
  | Protect p r => set_protected (<[p := r]> (protected s)) (placed p s)
  | Dangle p => set_dangling (dangling s ∪ {[ p ]}) (set_files (files s ∖ {[ p ]}) s)
  | Exit h code => end_proc h code s
  end.

Definition apply_acts (l : list Act) (s : State) : State :=
  fold_left (fun s a => apply_act a s) l s.

(** ** The monad of controller methods *)

(** A method call either returns a value or raises; in both cases it leaves a
    state behind. *)
Inductive Res (A : Type) :=
  | Ok (a : A)
  | Raise (e : exn).
Arguments Ok {A} a.
Arguments Raise {A} e.

Definition M (A : Type) : Type := State -> Res A * State.

Definition ret {A} (a : A) : M A := fun s => (Ok a, s).
Definition raise {A} (e : exn) : M A := fun s => (Raise e, s).
Definition bind {A B} (m : M A) (k : A -> M B) : M B :=
  fun s => match m s with
           | (Ok a, s') => k a s'
           | (Raise e, s') => (Raise e, s')
           end.
Definition gets {A} (f : State -> A) : M A := fun s => (Ok (f s), s).
Definition modify (f : State -> State) : M unit := fun s => (Ok tt, f s).

(** [try: m except E: handler], [E] given by the test [catches]. *)
Definition try_except {A} (m : M A) (catches : exn -> bool) (handler : M A) : M A :=
  fun s => match m s with
           | (Raise e, s') => if catches e then handler s' else (Raise e, s')
           | r => r
           end.

(** [try: m finally: cleanup], the shape of a [with] block. *)
Definition finally {A} (m : M A) (cleanup : State -> State) : M A :=
  fun s => let '(r, s') := m s in (r, cleanup s').

Declare Scope py_scope.
Delimit Scope py_scope with py.
Notation "x <- m ;; k" := (bind m (fun x => k))
  (at level 100, m at next level, right associativity) : py_scope.
Notation "m ;; k" := (bind m (fun _ => k))
  (at level 100, right associativity) : py_scope.
Open Scope py_scope.

(** ** Operating-system calls *)

(** The world moves while the caller is blocked: the next tick of the script
    is taken; an exhausted script is a world where nothing happens any more. *)
Definition peek (s : State) : Tick := hd quiet (env s).
Definition next_tick : M Tick :=
  fun s => (Ok (peek s), set_env (tl (env s)) s).

(** [os.path.exists(path)] *)
Definition os_path_exists (path : string) : M bool :=
  gets (fun s => bool_decide (path ∈ files s)).

(** [os.remove(path)]: fails as the world has it for the path, fails with
    [FileNotFoundError] when nothing is there, and unlinks what is there
    otherwise, a link to nothing like a file. *)
Definition os_remove (path : string) : M unit :=
  r <- gets (fun s => protected s !! path) ;;
  match r with
  | Some why => raise (remove_error why)
  | None =>
      there <- gets (fun s => bool_decide (path ∈ listed s)) ;;
      if there then modify (unlinked path) else raise FileNotFoundError
  end.

(** [time.sleep(0.1)] *)
Definition time_sleep : M unit :=
  t <- next_tick ;; modify (apply_acts (acts t)).

(** [subprocess.Popen(cmd)]: a new running process, named by its position.
    The launch itself is taken to succeed (the [mpv] binary exists) and to be
    instantaneous: the world does not move between the call and the next
    statement. *)
Definition Popen (cmd : list string) : M nat :=
  h <- gets (fun s => length (procs s)) ;;
  modify (fun s =>
    note_live (set_procs (procs s ++ [{| args := cmd; returncode := None |}]) s)) ;;
  ret h.

(** [p.poll()]: [None] while the process runs, else its return code.  A handle
    always names a launched process; for a position outside the table the
    function answers as for an ended one. *)
Definition poll (h : nat) : M (option Z) :=
  gets (fun s => match procs s !! h with
                 | Some p => returncode p
                 | None => Some 0
                 end).

(** [p.wait(timeout=3)]: blocks until the process ends or the time is up. *)
Definition wait (h : nat) : M unit :=
  t <- next_tick ;;
  modify (apply_acts (acts t)) ;;
  rc <- poll h ;;
  match rc with
  | Some _ => ret tt
  | None => raise TimeoutExpired
  end.

(** [p.kill()] *)
Definition kill (h : nat) : M unit := modify (end_proc h (-9)).

(** ** Built-in conversions *)

Definition lift {A} (r : Res A) : M A := fun s => (r, s).

(** [os.path.basename(x)] on a decoded value: only a [str] is a path. *)
Definition os_path_basename (x : json) : Res string :=
  match x with
  | JStr p => Ok (basename p)
  | _ => Raise TypeError
  end.

(** [int(f)] for a [float]: truncation towards zero. *)
Definition int_of_float (f : spec_float) : Res Z :=
  match f with
  | S754_zero _ => Ok 0%Z
  | S754_infinity _ => Raise OverflowError
  | S754_nan => Raise ValueError
  | S754_finite sign m e =>
      let mag := Z.shiftl (Z.pos m) e in
      Ok (if sign then Z.opp mag else mag)
  end.

Section Controller.

(** [int(s)] for a [str] is the interpreter's own parser of integer literals;
    it is taken as given. *)
Variable int_of_str : string -> option Z.

(** [int(x)] *)
Definition py_int (x : json) : Res Z :=
  match x with
  | JInt z => Ok z
  | JBool b => Ok (if b then 1 else 0)%Z
  | JFloat f => int_of_float f
  | JStr s => match int_of_str s with Some z => Ok z | None => Raise ValueError end
  | JNull | JArr _ | JObj _ => Raise TypeError
  end.

(** ** MPVController *)

Definition MPV_SOCKET : string := "/tmp/mpv-socket".
Definition MPV_PARAMS : list string :=
  [ "--audio-device=alsa/hdmi:CARD=PCH,DEV=0";
    "--fullscreen";
    "--sid 1";
    "--no-terminal" ].

(** [MPVController.__init__] with the default socket path. *)
Definition MPVController (fs : gset string) (script : list Tick) : State :=
  init MPV_SOCKET fs script.

(** [__clean_socket] *)
Definition clean_socket : M unit :=
  path <- gets socket_path ;;
  try_except (os_remove path) is_FileNotFoundError (ret tt).

(** The body of the [with socket.socket(...)] block of [__send_recv]:
    connect, send the payload, read the answer and decode it.  The loop that
    reads up to a newline or the end of the stream and [json.loads] are
    summed up in the fate of the exchange given by the tick. *)
Definition exchange (payload : json) : M json :=
  t <- next_tick ;;
  modify (apply_acts (acts t)) ;;
  match reply t with
  | Refused => raise ConnectionRefusedError
  | Garbage d =>
      modify (fun s => set_outbox (outbox s ++ [payload]) s) ;;
      raise (decode_error d)
  | Decoded j =>
      modify (fun s => set_outbox (outbox s ++ [payload]) s) ;;
      ret j
  end.

(** [__send_recv] *)
Definition send_recv (payload : json) : M json :=
  path <- gets socket_path ;;
  ex <- os_path_exists path ;;
  if negb ex then raise (RuntimeError "IPC socket absent")
  else
    modify (fun s => set_open_conns (S (open_conns s)) s) ;;
    finally (exchange payload) (fun s => set_open_conns (Nat.pred (open_conns s)) s).

(** [command] *)
Definition command (cmd : list string) : M unit :=
  send_recv (JObj [("command", JArr (map JStr cmd))]) ;;
  ret tt.

(** [get] *)
Definition get (prop : string) : M json :=
  resp <- send_recv (JObj [("command", JArr [JStr "get_property"; JStr prop])]) ;;
  match resp with
  | JObj kvs => ret (dict_get "data" kvs)
  | _ => raise AttributeError
  end.

(** [show_text] *)
Definition show_text (text : string) (duration_ms : Z) : M unit :=
  try_except (command ["show-text"; text; str duration_ms]) is_RuntimeError (ret tt).

(** [stop] *)
Definition stop : M unit :=
  p <- gets proc ;;
  (match p with
   | Some h =>
       rc <- poll h ;;
       match rc with
       | None =>
           command ["quit"] ;;
           try_except (wait h) is_TimeoutExpired (kill h)
       | Some _ => ret tt
       end
   | None => ret tt
   end) ;;
  modify (set_proc None) ;;
  clean_socket.

(** The [for _ in range(n)] loop of [start]: [true] when it ends by [break],
    [false] when it runs out and its [else] branch is taken. *)
Fixpoint wait_socket (n : nat) : M bool :=
  match n with
  | O => ret false
  | S k =>
      path <- gets socket_path ;;
      ex <- os_path_exists path ;;
      if ex then ret true else (time_sleep ;; wait_socket k)
  end.

(** The command line [start] builds. *)
Definition launch_cmd (path media : string) : list string :=
  ["mpv"; "--input-ipc-server=" +:+ path] ++ MPV_PARAMS ++ [media].

(** [start] *)
Definition start (media : string) : M unit :=
  stop ;;
  clean_socket ;;
  path <- gets socket_path ;;
  h <- Popen (launch_cmd path media) ;;
  modify (set_proc (Some h)) ;;
  found <- wait_socket 50 ;;
  if found then ret tt
  else raise (RuntimeError "IPC socket not found after starting mpv").

Definition PAUSED : string := bytes [195; 162; 194; 184] +:+ " Paused".
Definition PLAYING : string := bytes [195; 162; 226; 128; 147; 194; 182] +:+ " Playing".
Definition FORWARD : string := bytes [195; 162; 194; 169] +:+ " +".
Definition BACKWARD : string := bytes [195; 162; 194; 170] +:+ " -".
Definition SPEAKER : string := bytes [196; 159; 197; 184; 226; 128; 157; 197; 160] +:+ " ".

(** [pause] *)
Definition pause : M unit :=
  command ["cycle"; "pause"] ;;
  paused <- get "pause" ;;
  show_text (if truthy paused then PAUSED else PLAYING) 1200.

(** [seek] *)
Definition seek (delta : Z) : M unit :=
  command ["seek"; str delta; "relative"] ;;
  show_text ((if Z.ltb 0 delta then FORWARD else BACKWARD) +:+ str (Z.abs delta) +:+ " s") 1000.

(** [volume] *)
Definition volume (delta : Z) : M unit :=
  command ["add"; "volume"; str delta] ;;
  v <- get "volume" ;;
  vol <- lift (py_int (py_or v (JInt 0))) ;;
  show_text (SPEAKER +:+ str vol +:+ "%") 1000.

(** The dict display at the end of [status]: the three property reads and
    their conversions, in the order Python evaluates them. *)
Definition status_snapshot : M (list (string * json)) :=
  path <- get "path" ;;
  file <- lift (os_path_basename (py_or path (JStr ""))) ;;
  paused <- get "pause" ;;
  v <- get "volume" ;;
  vol <- lift (py_int (py_or v (JInt 0))) ;;
  ret [("running", JBool true); ("file", JStr file);
       ("paused", JBool (truthy paused)); ("volume", JInt vol)].

(** [status] *)
Definition status : M (list (string * json)) :=
  p <- gets proc ;;
  match p with
  | None => ret [("running", JBool false)]
  | Some h =>
      rc <- poll h ;;
      match rc with
      | None => ret [("running", JBool false)]
      | Some _ => status_snapshot
      end
  end.

End Controller.

(** * Vocabulary of the properties *)

(** A process keeps its command line and can only go from running to ended. *)
Definition ended (p p' : Proc) : Prop :=
  args p' = args p /\ (alive p' = true -> alive p = true).

(** [moved s s']: from [s] to [s'] the controller kept its attributes, every
    process kept its place and at most ended, no new maximum of live
    processes was reached, every socket opened was closed again and at most
    one more than before was open at a time. *)
Record moved (s s' : State) : Prop := {
  mv_path : socket_path s' = socket_path s;
  mv_proc : proc s' = proc s;
  mv_procs : Forall2 ended (procs s) (procs s');
  mv_peak_live : peak_live s' = peak_live s;
  mv_open : open_conns s' = open_conns s;
  mv_peak_conns : (peak_conns s' <= Nat.max (peak_conns s) (S (open_conns s)))%nat
}.

(** A computation is calm when every run of it is a [moved] step. *)
Definition calm {A} (m : M A) : Prop := forall s, moved s (snd (m s)).

(** The spec's derived field [running]: a process is tracked and has not
    ended.  This is the test [self.proc and self.proc.poll() is None] of
    [stop]. *)
Definition running (s : State) : bool :=
  match proc s with
  | Some h => match procs s !! h with Some p => alive p | None => false end
  | None => false
  end.

(** What stands in the way of removing the socket file, if anything does. *)
Definition blocked (s : State) : option RemoveError :=
  protected s !! socket_path s.


(** The state [stop] leaves when it has nothing to quit: no handle, no socket
    file. *)
Definition cleared (s : State) : State :=
  unlinked (socket_path s) (set_proc None s).

(** The bounded wait of [stop] and the kill that follows a timeout: one tick
    of the world, after which the process has ended either way. *)
Definition wait_or_kill (h : nat) : M unit :=
  try_except (wait h) is_TimeoutExpired (kill h).

(** The state that wait and kill leave: one tick of the world, then the kill,
    only if the process has not ended by then. *)
Definition after_wait (h : nat) (s : State) : State :=
  let s1 := apply_acts (acts (peek s)) (set_env (tl (env s)) s) in
  match procs s1 !! h with
  | Some p => if alive p then end_proc h (-9) s1 else s1
  | None => s1
  end.

(** The two halves of [stop]: quitting a live tracked process, then
    forgetting the handle and removing the socket file. *)
Definition stop_quit : M unit :=
  p <- gets proc ;;
  match p with
  | Some h =>
      rc <- poll h ;;
      match rc with
      | None => command ["quit"] ;; wait_or_kill h
      | Some _ => ret tt
      end
  | None => ret tt
  end.
Definition stop_clear : M unit :=
  modify (set_proc None) ;;
  clean_socket.

(** The three parts of [start]: the opening [stop] and removal of the socket
    file, the launch that ends with the new handle stored, and the polling
    loop. *)
Definition start_head : M unit :=
  stop ;;
  clean_socket.
Definition start_launch (media : string) : M unit :=
  path <- gets socket_path ;;
  h <- Popen (launch_cmd path media) ;;
  modify (set_proc (Some h)).
Definition start_poll : M unit :=
  found <- wait_socket 50 ;;
  if found then ret tt
  else raise (RuntimeError "IPC socket not found after starting mpv").

(** The state in which [start] begins to poll, [s] being the state its call
    of [stop] left: socket file removed, one more process, running and
    tracked. *)
Definition launched (media : string) (s : State) : State :=
  set_proc (Some (length (procs s)))
    (note_live
       (set_procs
          (procs s ++ [{| args := launch_cmd (socket_path s) media; returncode := None |}])
          (unlinked (socket_path s) s))).

(** The world after one more tick. *)
Definition slept (s : State) : State :=
  apply_acts (acts (peek s)) (set_env (tl (env s)) s).






(** What the caller of [__send_recv] gets for each fate of the exchange. *)
Definition received (r : Reply) : Res json :=
  match r with
  | Refused => Raise ConnectionRefusedError
  | Garbage d => Raise (decode_error d)
  | Decoded j => Ok j
  end.

(** The payload reaches the player unless the connection is refused. *)
Definition delivered (r : Reply) (payload : json) : list json :=
  match r with
  | Refused => []
  | _ => [payload]
  end.

Definition quit_payload : json := JObj [("command", JArr [JStr "quit"])].

(** What [get] makes of a decoded answer. *)
Definition data_of (j : json) : Res json :=
  match j with
  | JObj kvs => Ok (dict_get "data" kvs)
  | _ => Raise AttributeError
  end.

(** A parser of plain decimal literals, on which to run the model; every
    theorem below holds for any parser. *)
Fixpoint digits_value (acc : Z) (s : string) : option Z :=
  match s with
  | EmptyString => Some acc
  | String c rest =>
      let n := Z.of_nat (Ascii.nat_of_ascii c) in
      if Z.leb 48 n && Z.leb n 57 then digits_value (10 * acc + (n - 48)) rest
      else None
  end.
Definition plain_int_of_str (s : string) : option Z :=
  match s with
  | EmptyString => None
  | String c rest =>
      if Ascii.eqb c (Ascii.ascii_of_nat 45)
      then match rest with
           | EmptyString => None
           | _ => option_map Z.opp (digits_value 0 rest)
           end
      else digits_value 0 s
  end.

Definition tick (l : list Act) (r : Reply) : Tick := {| acts := l; reply := r |}.

(** A player that creates its socket during the first sleep of [start] and
    then answers the three property reads of [status]. *)
Definition movie_script : list Tick :=
  [ tick [Touch MPV_SOCKET] Refused;
    tick [] (Decoded (JObj [("data", JStr "/media/movie.mkv"); ("error", JStr "success")]));
    tick [] (Decoded (JObj [("data", JBool false); ("error", JStr "success")]));
    tick [] (Decoded (JObj [("data", JFloat (S754_finite false 25 2)); ("error", JStr "success")])) ].

(** The controller after [start("/media/movie.mkv")] with that player. *)
Definition playing_movie : State :=
  snd (start "/media/movie.mkv" (MPVController ∅ movie_script)).

(** The same session after the player ended by itself. *)
Definition movie_over : State := apply_acts [Exit 0 0] playing_movie.

(** The same, the player having removed its socket on the way out. *)
Definition movie_gone : State := apply_acts [Exit 0 0; Unlink MPV_SOCKET] playing_movie.

(** The controller after [start] with a player that never creates a socket. *)
Definition wedged : State :=
  snd (start "/media/a.mkv" (MPVController ∅ [])).

(** A player whose socket exists and that answers every read with an error
    object, without data. *)
Definition no_data : json := JObj [("error", JStr "property unavailable")].
Definition mute_player : State :=
  set_env [tick [] (Decoded no_data); tick [] (Decoded no_data);
           tick [] (Decoded no_data); tick [] (Decoded no_data)] movie_over.


(** A sequence of [stop()] calls, the world moving before each. *)
Fixpoint stop_seq (moves : list (list Act)) (s : State) : list (Res unit) * State :=
  match moves with
  | [] => ([], s)
  | l :: rest =>
      let '(r, s1) := stop (apply_acts l s) in
      let '(rs, s2) := stop_seq rest s1 in
      (r :: rs, s2)
  end.

(** The act leaves at [path] something that [os.remove] fails on. *)
Definition protects (path : string) (a : Act) : bool :=
  match a with
  | Protect p _ => String.eqb p path
  | _ => false
  end.

(** None of the moves of the world does so. *)
Definition unprotected (path : string) (moves : list (list Act)) : bool :=
  forallb (forallb (fun a => negb (protects path a))) moves.

(** A controller that never played, with a directory where its socket would
    be. *)
Definition dir_at_socket : State :=
  apply_acts [Protect MPV_SOCKET IsADirectory] (MPVController ∅ []).

(** The act ends process [h]. *)
Definition ends (h : nat) (a : Act) : bool :=
  match a with
  | Exit h' _ => Nat.eqb h' h
  | _ => false
  end.

(** None of the ticks ends process [h]. *)
Definition left_alone (h : nat) (ts : list Tick) : bool :=
  forallb (fun t => forallb (fun a => negb (ends h a)) (acts t)) ts.

(** The state after [k] sleeps. *)
Fixpoint sleeps (k : nat) (s : State) : State :=
  match k with
  | O => s
  | S k' => sleeps k' (slept s)
  end.

(** The option that keeps the player running when it has nothing to play. *)
Definition keep_running_when_idle (a : string) : bool := String.prefix "--idle" a.

(** * Properties *)

Arguments wait_socket : simpl never.

(** Unfold the monad and the system calls, leaving the state's fields and the
    set operations as they are. *)
Ltac prims :=
  cbn [bind gets modify ret raise lift try_except finally
       os_path_exists os_remove time_sleep next_tick Popen poll wait kill
       negb fst snd returncode args].

(** ** The conversions on sample values *)

Example basename_movie : basename "/media/movie.mkv" = "movie.mkv".
Proof. reflexivity. Qed.

Example basename_trailing_slash : basename "/media/" = "".
Proof. reflexivity. Qed.

Example str_negative : str (-5) = "-5".
Proof. reflexivity. Qed.

Example int_of_float_100 : int_of_float (S754_finite false 25 2) = Ok 100%Z.
Proof. reflexivity. Qed.

Example int_of_float_minus_half : int_of_float (S754_finite true 1 (-1)) = Ok 0%Z.
Proof. reflexivity. Qed.

Example launch_cmd_default :
  launch_cmd MPV_SOCKET "/media/movie.mkv"
  = ["mpv"; "--input-ipc-server=/tmp/mpv-socket";
     "--audio-device=alsa/hdmi:CARD=PCH,DEV=0"; "--fullscreen"; "--sid 1";
     "--no-terminal"; "/media/movie.mkv"].
Proof. reflexivity. Qed.

(** ** The channel when the socket path is missing *)

Lemma send_recv_absent (s : State) (payload : json) :
  socket_path s ∉ files s ->
  send_recv payload s = (Raise ChannelUnavailable, s).
Proof.
  intros Habs. unfold send_recv. prims.
  rewrite bool_decide_eq_false_2 by exact Habs. reflexivity.
Qed.

Lemma command_absent (s : State) (cmd : list string) :
  socket_path s ∉ files s ->
  command cmd s = (Raise ChannelUnavailable, s).
Proof.
  intros Habs. unfold command, bind. now rewrite send_recv_absent.
Qed.

Lemma get_absent (s : State) (prop : string) :
  socket_path s ∉ files s ->
  get prop s = (Raise ChannelUnavailable, s).
Proof.
  intros Habs. unfold get, bind. now rewrite send_recv_absent.
Qed.

Lemma show_text_absent (s : State) (text : string) (ms : Z) :
  socket_path s ∉ files s ->
  show_text text ms s = (Ok tt, s).
Proof.
  intros Habs. unfold show_text, try_except. now rewrite command_absent.
Qed.

(** C9.  When the socket path does not exist, [pause], [seek] and [volume]
    raise ChannelUnavailable from their first command, before anything is sent
    or changed, and so does a property read; only [show_text] swallows the
    failure.  Likewise inside an operation: when the path disappears after the
    first command, the property read that follows in [pause] and [volume]
    raises, while a path that disappears just before the notification leaves
    the operation to return normally. *)
Theorem controls_need_socket (int_of_str : string -> option Z)
    (s : State) (delta : Z) :
  (socket_path s ∉ files s ->
     pause s = (Raise ChannelUnavailable, s)
     /\ seek delta s = (Raise ChannelUnavailable, s)
     /\ volume int_of_str delta s = (Raise ChannelUnavailable, s)
     /\ (forall prop, get prop s = (Raise ChannelUnavailable, s))
     /\ (forall text ms, show_text text ms s = (Ok tt, s)))
  /\ (forall s1,
        command ["cycle"; "pause"] s = (Ok tt, s1) -> socket_path s1 ∉ files s1 ->
        pause s = (Raise ChannelUnavailable, s1))
  /\ (forall s1,
        command ["add"; "volume"; str delta] s = (Ok tt, s1) ->
        socket_path s1 ∉ files s1 ->
        volume int_of_str delta s = (Raise ChannelUnavailable, s1))
  /\ (forall s1 v s2,
        command ["cycle"; "pause"] s = (Ok tt, s1) ->
        get "pause" s1 = (Ok v, s2) -> socket_path s2 ∉ files s2 ->
        pause s = (Ok tt, s2))
  /\ (forall s1,
        command ["seek"; str delta; "relative"] s = (Ok tt, s1) ->
        socket_path s1 ∉ files s1 ->
        seek delta s = (Ok tt, s1)).
Proof.
  split.
  { intros Habs. split; [|split; [|split; [|split]]].
    - unfold pause, bind. now rewrite command_absent.
    - unfold seek, bind. now rewrite command_absent.
    - unfold volume, bind. now rewrite command_absent.
    - intros prop. now apply get_absent.
    - intros text ms. now apply show_text_absent. }
  split. { intros s1 H1 Habs. unfold pause, bind. rewrite H1. now rewrite get_absent. }
  split. { intros s1 H1 Habs. unfold volume, bind. rewrite H1. now rewrite get_absent. }
  split. { intros s1 v s2 H1 H2 Habs. unfold pause, bind. rewrite H1, H2.
           now apply show_text_absent. }
  intros s1 H1 Habs. unfold seek, bind. rewrite H1. now apply show_text_absent.
Qed.

(** ** What an operation that neither launches nor forgets a process can do *)

Lemma ended_refl (ps : list Proc) : Forall2 ended ps ps.
Proof. induction ps; constructor; [split|]; auto. Qed.

Lemma ended_trans (ps1 ps2 ps3 : list Proc) :
  Forall2 ended ps1 ps2 -> Forall2 ended ps2 ps3 -> Forall2 ended ps1 ps3.
Proof.
  intros H12. revert ps3. induction H12 as [|p1 p2 l1 l2 [Ha Hl] _ IH]; intros ps3 H23.
  - inversion H23; constructor.
  - inversion H23 as [|? p3 ? l3 [Ha' Hl'] Hrest]; subst. constructor.
    + split; [congruence | auto].
    + now apply IH.
Qed.

Lemma end_in_ended (h : nat) (code : Z) (ps : list Proc) :
  Forall2 ended ps (end_in h code ps).
Proof.
  unfold end_in. destruct (ps !! h) as [p|] eqn:Hh; [|apply ended_refl].
  destruct (alive p) eqn:Hp; [|apply ended_refl].
  rewrite <- (list_insert_id ps h p Hh) at 1.
  apply Forall2_insert; [apply ended_refl|].
  split; [reflexivity | intros _; exact Hp].
Qed.


Lemma moved_refl (s : State) : moved s s.
Proof. split; auto using ended_refl. lia. Qed.

Lemma moved_trans (s1 s2 s3 : State) : moved s1 s2 -> moved s2 s3 -> moved s1 s3.
Proof.
  intros [A1 B1 C1 D1 E1 F1] [A2 B2 C2 D2 E2 F2]. split; try congruence.
  - eapply ended_trans; eauto.
  - rewrite E1 in F2. lia.
Qed.

Lemma apply_act_moved (a : Act) (s : State) : moved s (apply_act a s).
Proof.
  destruct a as [p|p|p r|p|h code]; split; simpl; auto using ended_refl, end_in_ended; lia.
Qed.

Lemma apply_acts_moved (l : list Act) (s : State) : moved s (apply_acts l s).
Proof.
  revert s. induction l as [|a l IH]; intros s; [apply moved_refl|].
  simpl. eapply moved_trans; [apply apply_act_moved | apply IH].
Qed.

Lemma calm_ret {A} (a : A) : calm (ret a).
Proof. intros s. apply moved_refl. Qed.

Lemma calm_raise {A} (e : exn) : calm (@raise A e).
Proof. intros s. apply moved_refl. Qed.


Lemma calm_gets {A} (f : State -> A) : calm (gets f).
Proof. intros s. apply moved_refl. Qed.

Lemma calm_bind {A B} (m : M A) (k : A -> M B) :
  calm m -> (forall a, calm (k a)) -> calm (bind m k).
Proof.
  intros Hm Hk s. unfold bind. specialize (Hm s).
  destruct (m s) as [[a|e] s1]; simpl in *; [|exact Hm].
  eapply moved_trans; [exact Hm | apply Hk].
Qed.

Lemma calm_try {A} (m : M A) (c : exn -> bool) (h : M A) :
  calm m -> calm h -> calm (try_except m c h).
Proof.
  intros Hm Hh s. unfold try_except. specialize (Hm s).
  destruct (m s) as [[a|e] s1]; simpl in *; [exact Hm|].
  destruct (c e); [|exact Hm].
  eapply moved_trans; [exact Hm | apply Hh].
Qed.

Lemma calm_modify (f : State -> State) :
  (forall s, moved s (f s)) -> calm (modify f).
Proof. intros Hf s. apply Hf. Qed.

Lemma set_env_moved (e : list Tick) (s : State) : moved s (set_env e s).
Proof. split; simpl; auto using ended_refl. lia. Qed.

Lemma set_files_moved (f : gset string) (s : State) : moved s (set_files f s).
Proof. split; simpl; auto using ended_refl. lia. Qed.

Lemma unlinked_moved (path : string) (s : State) : moved s (unlinked path s).
Proof. split; simpl; auto using ended_refl. lia. Qed.

Lemma set_outbox_moved (o : list json) (s : State) : moved s (set_outbox o s).
Proof. split; simpl; auto using ended_refl. lia. Qed.

Lemma end_proc_moved (h : nat) (code : Z) (s : State) : moved s (end_proc h code s).
Proof. split; simpl; auto using end_in_ended. lia. Qed.

Lemma calm_next_tick : calm next_tick.
Proof. intros s. apply set_env_moved. Qed.

Lemma calm_time_sleep : calm time_sleep.
Proof.
  apply calm_bind; [apply calm_next_tick|]. intros t.
  apply calm_modify, apply_acts_moved.
Qed.

Lemma calm_poll (h : nat) : calm (poll h).
Proof. apply calm_gets. Qed.

Lemma calm_kill (h : nat) : calm (kill h).
Proof. apply calm_modify, end_proc_moved. Qed.

Lemma calm_wait (h : nat) : calm (wait h).
Proof.
  apply calm_bind; [apply calm_next_tick|]. intros t.
  apply calm_bind; [apply calm_modify, apply_acts_moved|]. intros _.
  apply calm_bind; [apply calm_poll|]. intros [rc|]; [apply calm_ret | apply calm_raise].
Qed.

Lemma calm_os_remove (path : string) : calm (os_remove path).
Proof.
  apply calm_bind; [apply calm_gets|]. intros [why|]; [apply calm_raise|].
  apply calm_bind; [apply calm_gets|]. intros [|]; [|apply calm_raise].
  apply calm_modify. intros s. apply unlinked_moved.
Qed.

Lemma calm_clean_socket : calm clean_socket.
Proof.
  apply calm_bind; [apply calm_gets|]. intros path.
  apply calm_try; [apply calm_os_remove | apply calm_ret].
Qed.

Lemma apply_acts_conns (l : list Act) (s : State) :
  open_conns (apply_acts l s) = open_conns s
  /\ peak_conns (apply_acts l s) = peak_conns s.
Proof.
  revert s. induction l as [|a l IH]; intros s; [auto|].
  simpl. destruct (IH (apply_act a s)) as [-> ->]. now destruct a.
Qed.

Lemma exchange_moved (payload : json) (s : State) :
  moved s (snd (exchange payload s))
  /\ peak_conns (snd (exchange payload s)) = peak_conns s.
Proof.
  unfold exchange. prims.
  pose proof (apply_acts_moved (acts (peek s)) (set_env (tl (env s)) s)) as Hm.
  pose proof (apply_acts_conns (acts (peek s)) (set_env (tl (env s)) s)) as [_ Hc].
  assert (moved s (apply_acts (acts (peek s)) (set_env (tl (env s)) s))) as Hm'
    by (eapply moved_trans; [apply set_env_moved | exact Hm]).
  destruct (reply (peek s)); simpl; (split; [|exact Hc]); auto.
  all: eapply moved_trans; [exact Hm' | apply set_outbox_moved].
Qed.

Lemma calm_send_recv (payload : json) : calm (send_recv payload).
Proof.
  intros s. unfold send_recv. prims.
  destruct (bool_decide (socket_path s ∈ files s)); prims; [|apply moved_refl].
  set (s1 := set_open_conns (S (open_conns s)) s).
  destruct (exchange_moved payload s1) as [[A B C D E _] G].
  unfold finally. destruct (exchange payload s1) as [r s2]. simpl in *.
  split; simpl; try congruence.
  - rewrite E. reflexivity.
  - rewrite G, E. simpl. lia.
Qed.

Lemma calm_command (cmd : list string) : calm (command cmd).
Proof.
  apply calm_bind; [apply calm_send_recv|]. intros _. apply calm_ret.
Qed.








Lemma calm_wait_socket (n : nat) : calm (wait_socket n).
Proof.
  induction n as [|n IH]; [apply calm_ret|]. cbn [wait_socket].
  apply calm_bind; [apply calm_gets|]. intros path.
  apply calm_bind; [apply calm_gets|]. intros [|]; [apply calm_ret|].
  apply calm_bind; [apply calm_time_sleep|]. intros _. exact IH.
Qed.

(** ** Sessions *)

Lemma set_files_same (s : State) : set_files (files s) s = s.
Proof. now destruct s. Qed.

Lemma not_listed (path : string) (s : State) :
  path ∉ listed s <-> (path ∉ files s) /\ (path ∉ dangling s).
Proof. unfold listed. apply not_elem_of_union. Qed.

Lemma unlinked_absent (path : string) (s : State) :
  path ∉ listed s -> unlinked path s = s.
Proof.
  intros [Hf Hd]%not_listed. unfold unlinked.
  rewrite !difference_disjoint_L by (now apply disjoint_singleton_r).
  now destruct s.
Qed.

Lemma unlinked_not_listed (path : string) (s : State) :
  path ∉ listed (unlinked path s).
Proof.
  apply not_listed. simpl.
  split; apply not_elem_of_difference; right; now apply elem_of_singleton.
Qed.

Lemma clean_socket_eq (s : State) :
  clean_socket s =
    match blocked s with
    | None => (Ok tt, unlinked (socket_path s) s)
    | Some why => (Raise (remove_error why), s)
    end.
Proof.
  unfold clean_socket, try_except, os_remove, blocked. prims.
  destruct (protected s !! socket_path s) as [[| |]|]; prims; try reflexivity.
  destruct (bool_decide (socket_path s ∈ listed s)) eqn:Hex; prims; [reflexivity|].
  apply bool_decide_eq_false in Hex. now rewrite unlinked_absent.
Qed.

Lemma clean_socket_absent (s : State) :
  blocked s = None -> socket_path s ∉ listed s -> clean_socket s = (Ok tt, s).
Proof.
  intros Hb Habs. rewrite clean_socket_eq, Hb. now rewrite unlinked_absent.
Qed.

Lemma stop_clear_eq (s : State) :
  stop_clear s =
    match blocked s with
    | None => (Ok tt, cleared s)
    | Some why => (Raise (remove_error why), set_proc None s)
    end.
Proof.
  unfold stop_clear, bind. prims. rewrite clean_socket_eq.
  change (blocked (set_proc None s)) with (blocked s).
  now destruct (blocked s).
Qed.

Lemma stop_split (s : State) : stop s = (stop_quit ;; stop_clear) s.
Proof.
  unfold stop, stop_quit, stop_clear, wait_or_kill, bind. prims.
  destruct (proc s) as [h|]; [|reflexivity]. prims.
  destruct (procs s !! h) as [[a [rc|]]|]; reflexivity.
Qed.


Lemma stop_idle (s : State) :
  running s = false -> stop s = stop_clear s.
Proof.
  unfold running. intros Hr. rewrite stop_split. unfold stop_quit, bind. prims.
  destruct (proc s) as [h|]; prims;
    [destruct (procs s !! h) as [[a [rc|]]|]; simpl in *; try discriminate|];
    reflexivity.
Qed.

Lemma stop_idle_free (s : State) :
  running s = false -> blocked s = None -> stop s = (Ok tt, cleared s).
Proof. intros Hr Hb. now rewrite stop_idle, stop_clear_eq, Hb. Qed.

Lemma apply_acts_env (l : list Act) (s : State) : env (apply_acts l s) = env s.
Proof.
  revert s. induction l as [|a l IH]; intros s; [reflexivity|].
  simpl. rewrite IH. now destruct a.
Qed.

Lemma apply_acts_outbox (l : list Act) (s : State) : outbox (apply_acts l s) = outbox s.
Proof.
  revert s. induction l as [|a l IH]; intros s; [reflexivity|].
  simpl. rewrite IH. now destruct a.
Qed.

Lemma wait_or_kill_spec (h : nat) (s : State) :
  exists s', wait_or_kill h s = (Ok tt, s')
    /\ moved s s'
    /\ (forall p, procs s' !! h = Some p -> alive p = false)
    /\ env s' = tl (env s)
    /\ outbox s' = outbox s.
Proof.
  unfold wait_or_kill, try_except, wait, bind. prims.
  set (s1 := apply_acts (acts (peek s)) (set_env (tl (env s)) s)).
  assert (moved s s1) as Hm
    by (eapply moved_trans; [apply set_env_moved | apply apply_acts_moved]).
  assert (env s1 = tl (env s)) as He by (unfold s1; now rewrite apply_acts_env).
  assert (outbox s1 = outbox s) as Ho by (unfold s1; now rewrite apply_acts_outbox).
  destruct (procs s1 !! h) as [[a [rc|]]|] eqn:Hh; simpl.
  - exists s1. split; [reflexivity|]. split; [exact Hm|]. split; [|now split].
    intros p Hp. rewrite Hh in Hp. now inversion Hp.
  - exists (end_proc h (-9) s1). split; [reflexivity|]. split; [|split; [|now split]].
    + eapply moved_trans; [exact Hm | apply end_proc_moved].
    + intros p. simpl. unfold end_in. rewrite Hh. simpl.
      rewrite list_lookup_insert_eq by (eapply lookup_lt_Some; eauto).
      intros Hp. now inversion Hp.
  - exists s1. split; [reflexivity|]. split; [exact Hm|]. split; [|now split].
    intros p Hp. rewrite Hh in Hp. discriminate.
Qed.

Lemma stop_running (s : State) (h : nat) :
  proc s = Some h -> running s = true ->
  stop s =
    match command ["quit"] s with
    | (Raise e, s1) => (Raise e, s1)
    | (Ok _, s1) => stop_clear (snd (wait_or_kill h s1))
    end.
Proof.
  unfold running. intros Hh Hr. rewrite Hh in Hr. rewrite stop_split.
  unfold stop_quit, bind. prims. rewrite Hh. prims.
  destruct (procs s !! h) as [[a [rc|]]|]; simpl in Hr; try discriminate.
  prims.
  destruct (command ["quit"] s) as [[[]|e] s1]; [|reflexivity].
  destruct (wait_or_kill_spec h s1) as (s2 & -> & _). reflexivity.
Qed.

Lemma stop_ok_clean (s : State) (u : unit) (s0 : State) :
  stop s = (Ok u, s0) -> blocked s0 = None /\ socket_path s0 ∉ listed s0.
Proof.
  assert (forall s1, stop_clear s1 = (Ok u, s0) ->
            blocked s0 = None /\ socket_path s0 ∉ listed s0) as Hc.
  { intros s1. rewrite stop_clear_eq. destruct (blocked s1) eqn:Hb; [discriminate|].
    intros H. inversion H. split; [exact Hb|].
    apply (unlinked_not_listed (socket_path s1) (set_proc None s1)). }
  destruct (running s) eqn:Hr; [|rewrite stop_idle by exact Hr; apply Hc].
  unfold running in Hr. destruct (proc s) as [h|] eqn:Hh; [|discriminate].
  rewrite (stop_running s h Hh) by (unfold running; now rewrite Hh).
  destruct (command ["quit"] s) as [[[]|e] s1]; [apply Hc | discriminate].
Qed.

Lemma time_sleep_eq (s : State) : time_sleep s = (Ok tt, slept s).
Proof. reflexivity. Qed.

Lemma wait_socket_S (n : nat) (s : State) :
  wait_socket (S n) s =
    if bool_decide (socket_path s ∈ files s) then (Ok true, s)
    else wait_socket n (slept s).
Proof.
  change (wait_socket (S n)) with
    (path <- gets socket_path ;; ex <- os_path_exists path ;;
     if ex then ret true else (time_sleep ;; wait_socket n)).
  unfold bind. prims. now destruct (bool_decide (socket_path s ∈ files s)).
Qed.

Lemma wait_socket_returns (n : nat) (s : State) :
  exists b s', wait_socket n s = (Ok b, s').
Proof.
  revert s. induction n as [|n IH]; intros s; [now exists false, s|].
  rewrite wait_socket_S.
  destruct (bool_decide (socket_path s ∈ files s)); [now exists true, s | apply IH].
Qed.

Lemma start_cases (media : string) (s : State) :
  start media s =
    match stop s with
    | (Raise e, s') => (Raise e, s')
    | (Ok _, s0) =>
        match wait_socket 50 (launched media s0) with
        | (Ok true, s') => (Ok tt, s')
        | (Ok false, s') => (Raise LaunchTimeout, s')
        | (Raise e, s') => (Raise e, s')
        end
    end.
Proof.
  unfold start. unfold bind at 1.
  destruct (stop s) as [[[]|e] s0] eqn:Hstop; [|reflexivity].
  pose proof (stop_ok_clean s tt s0 Hstop) as [Hb Habs].
  unfold bind at 1. rewrite clean_socket_eq, Hb.
  unfold bind, Popen. prims. cbn [procs socket_path unlinked set_files set_dangling].
  fold (launched media s0).
  destruct (wait_socket 50 (launched media s0)) as [[[|]|e] s']; reflexivity.
Qed.

(** The removal that follows the opening [stop] of [start] finds nothing left
    to remove. *)
Lemma start_head_eq (s : State) : start_head s = stop s.
Proof.
  unfold start_head, bind. destruct (stop s) as [[[]|e] s0] eqn:Hstop; [|reflexivity].
  destruct (stop_ok_clean s tt s0 Hstop) as [Hb Habs]. now apply clean_socket_absent.
Qed.

Lemma start_split (media : string) (s : State) :
  start media s = (start_head ;; start_launch media ;; start_poll) s.
Proof.
  unfold start, start_head, start_launch, start_poll, bind.
  destruct (stop s) as [[[]|e] s0]; [|reflexivity].
  destruct (clean_socket s0) as [[[]|e] s1]; reflexivity.
Qed.

Lemma start_launch_eq (media : string) (s : State) :
  socket_path s ∉ listed s -> start_launch media s = (Ok tt, launched media s).
Proof.
  intros Habs. unfold start_launch, launched, bind, Popen. prims.
  now rewrite unlinked_absent.
Qed.

Lemma start_poll_eq (s : State) :
  start_poll s =
    match wait_socket 50 s with
    | (Ok true, s') => (Ok tt, s')
    | (Ok false, s') => (Raise LaunchTimeout, s')
    | (Raise e, s') => (Raise e, s')
    end.
Proof.
  unfold start_poll, bind. now destruct (wait_socket 50 s) as [[[|]|e] s'].
Qed.

(** ** The invariant of the controller *)







Lemma cleared_vacant (s : State) :
  socket_path (cleared s) ∉ listed (cleared s).
Proof. apply (unlinked_not_listed (socket_path s) (set_proc None s)). Qed.


Lemma running_true_tracked (s : State) :
  running s = true -> exists h, proc s = Some h.
Proof. unfold running. destruct (proc s) as [h|]; [now exists h | discriminate]. Qed.








(** ** Sequences of calls *)



(** ** One exchange on an existing socket path *)

Lemma send_recv_present (payload : json) (s : State) :
  socket_path s ∈ files s ->
  fst (send_recv payload s) = received (reply (peek s))
  /\ env (snd (send_recv payload s)) = tl (env s)
  /\ outbox (snd (send_recv payload s))
     = (outbox s ++ delivered (reply (peek s)) payload)%list.
Proof.
  intros Hex. unfold send_recv. prims.
  rewrite bool_decide_eq_true_2 by exact Hex. prims.
  unfold finally, exchange, bind. prims.
  change (peek (set_open_conns (S (open_conns s)) s)) with (peek s).
  destruct (reply (peek s)); simpl;
    rewrite ?apply_acts_env, ?apply_acts_outbox; simpl;
    rewrite ?app_nil_r; auto.
Qed.

Lemma command_present (cmd : list string) (s : State) :
  socket_path s ∈ files s ->
  fst (command cmd s) =
    match reply (peek s) with
    | Refused => Raise ConnectionRefusedError
    | Garbage d => Raise (decode_error d)
    | Decoded _ => Ok tt
    end
  /\ env (snd (command cmd s)) = tl (env s)
  /\ outbox (snd (command cmd s)) =
       (outbox s ++ delivered (reply (peek s)) (JObj [("command", JArr (map JStr cmd))]))%list.
Proof.
  intros Hex. unfold command, bind.
  destruct (send_recv_present (JObj [("command", JArr (map JStr cmd))]) s Hex)
    as (Hr & He & Ho).
  destruct (send_recv _ s) as [r s1]. simpl in *. subst r.
  destruct (reply (peek s)); simpl; auto.
Qed.

Lemma get_present (prop : string) (s : State) :
  socket_path s ∈ files s ->
  fst (get prop s) =
    match reply (peek s) with
    | Refused => Raise ConnectionRefusedError
    | Garbage d => Raise (decode_error d)
    | Decoded j => data_of j
    end.
Proof.
  intros Hex. unfold get, bind.
  destruct (send_recv_present
              (JObj [("command", JArr [JStr "get_property"; JStr prop])]) s Hex)
    as (Hr & _).
  destruct (send_recv _ s) as [r s1]. simpl in *. subst r.
  destruct (reply (peek s)) as [|d|[]]; reflexivity.
Qed.

(** ** status *)

Lemma status_untracked (int_of_str : string -> option Z) (s : State) :
  proc s = None -> status int_of_str s = (Ok [("running", JBool false)], s).
Proof. intros Hn. unfold status, bind. prims. now rewrite Hn. Qed.

(** A tracked process that is still running makes [status] answer
    [{"running": False}] at once. *)
Lemma status_running (int_of_str : string -> option Z) (s : State) :
  running s = true -> status int_of_str s = (Ok [("running", JBool false)], s).
Proof.
  unfold running, status, bind. prims. intros Hr.
  destruct (proc s) as [h|]; [|discriminate]. prims.
  destruct (procs s !! h) as [[a [rc|]]|]; try discriminate. reflexivity.
Qed.

(** A tracked process that has ended makes [status] read the properties. *)
Lemma status_ended (int_of_str : string -> option Z) (s : State) (h : nat) :
  proc s = Some h -> running s = false ->
  status int_of_str s = status_snapshot int_of_str s.
Proof.
  unfold running, status, bind. prims. intros Hh Hr. rewrite Hh in *. prims.
  destruct (procs s !! h) as [[a [rc|]]|]; try discriminate; reflexivity.
Qed.

Lemma status_two_ways (int_of_str : string -> option Z) (s : State) :
  status int_of_str s = (Ok [("running", JBool false)], s)
  \/ status int_of_str s = status_snapshot int_of_str s.
Proof.
  destruct (proc s) as [h|] eqn:Hh; [|left; now apply status_untracked].
  destruct (running s) eqn:Hr; [left; now apply status_running|].
  right. now apply (status_ended _ s h).
Qed.

Lemma status_snapshot_ok (int_of_str : string -> option Z) (s : State)
    (d : list (string * json)) (s' : State) :
  status_snapshot int_of_str s = (Ok d, s') ->
  exists v1 s1 v2 s2 v3 f vol,
    get "path" s = (Ok v1, s1)
    /\ get "pause" s1 = (Ok v2, s2)
    /\ get "volume" s2 = (Ok v3, s')
    /\ os_path_basename (py_or v1 (JStr "")) = Ok f
    /\ py_int int_of_str (py_or v3 (JInt 0)) = Ok vol
    /\ d = [("running", JBool true); ("file", JStr f);
            ("paused", JBool (truthy v2)); ("volume", JInt vol)].
Proof.
  intros H. unfold status_snapshot, bind, lift, ret in H.
  destruct (get "path" s) as [[v1|e1] s1]; [|discriminate].
  destruct (os_path_basename (py_or v1 (JStr ""))) as [f|e] eqn:Hf; [|discriminate].
  destruct (get "pause" s1) as [[v2|e2] s2] eqn:H2; [|discriminate].
  destruct (get "volume" s2) as [[v3|e3] s3] eqn:H3; [|discriminate].
  destruct (py_int int_of_str (py_or v3 (JInt 0))) as [vol|e] eqn:Hv; [|discriminate].
  inversion H; subst. exists v1, s1, v2, s2, v3, f, vol. now repeat split.
Qed.

(** ** Membership on concrete worlds *)

Lemma absent_by_decide (p : string) (X : gset string) :
  bool_decide (p ∈ X) = false -> p ∉ X.
Proof. apply bool_decide_eq_false. Qed.

Lemma present_by_decide (p : string) (X : gset string) :
  bool_decide (p ∈ X) = true -> p ∈ X.
Proof. apply bool_decide_eq_true. Qed.

(** ** Claims about status *)

(** C1.  The liveness test of [status] is inverted.  After a successful
    [start("/media/movie.mkv")], with the player running and ready to answer,
    [status()] returns [{"running": False}] and asks nothing; once that player
    has ended, [status()] reads the properties and reports [running: True]
    with file [movie.mkv]. *)
Theorem status_liveness_inverted :
  fst (start "/media/movie.mkv" (MPVController ∅ movie_script)) = Ok tt
  /\ running playing_movie = true
  /\ status plain_int_of_str playing_movie
     = (Ok [("running", JBool false)], playing_movie)
  /\ running movie_over = false
  /\ fst (status plain_int_of_str movie_over)
     = Ok [("running", JBool true); ("file", JStr "movie.mkv");
           ("paused", JBool false); ("volume", JInt 100)].
Proof. vm_compute. repeat split; reflexivity. Qed.

(** C2, as stated, fails: with a tracked player that has ended and taken its
    socket with it, [status()] raises. *)
Lemma status_raises_without_socket :
  status plain_int_of_str movie_gone = (Raise ChannelUnavailable, movie_gone).
Proof. vm_compute. reflexivity. Qed.

(** C2, amended.  [status] either answers [{"running": False}] without asking
    anything or evaluates its three property reads.  A read that fails,
    whichever of the three and whatever the failure (no socket path, refused
    connection, undecodable answer, an answer that is not an object), raises
    the same error out of [status], and so does a value that does not convert.
    [status] returns the snapshot only when all three reads returned, and each
    field is then computed from the value read: no field ever takes a default
    in place of a failed read.  A false value read, such as the null of an
    answer without data, gives the default (empty string, false, zero). *)
Theorem status_propagates_channel_errors (int_of_str : string -> option Z) (s : State) :
  (status int_of_str s = (Ok [("running", JBool false)], s)
   \/ status int_of_str s = status_snapshot int_of_str s)
  /\ (socket_path s ∉ files s ->
      status_snapshot int_of_str s = (Raise ChannelUnavailable, s))
  /\ (socket_path s ∈ files s -> reply (peek s) = Refused ->
      fst (status_snapshot int_of_str s) = Raise ConnectionRefusedError)
  /\ (forall d, socket_path s ∈ files s -> reply (peek s) = Garbage d ->
      fst (status_snapshot int_of_str s) = Raise (decode_error d))
  /\ (forall e s1,
        get "path" s = (Raise e, s1) ->
        status_snapshot int_of_str s = (Raise e, s1))
  /\ (forall v1 s1 e,
        get "path" s = (Ok v1, s1) ->
        os_path_basename (py_or v1 (JStr "")) = Raise e ->
        status_snapshot int_of_str s = (Raise e, s1))
  /\ (forall v1 s1 f e s2,
        get "path" s = (Ok v1, s1) ->
        os_path_basename (py_or v1 (JStr "")) = Ok f ->
        get "pause" s1 = (Raise e, s2) ->
        status_snapshot int_of_str s = (Raise e, s2))
  /\ (forall v1 s1 f v2 s2 e s3,
        get "path" s = (Ok v1, s1) ->
        os_path_basename (py_or v1 (JStr "")) = Ok f ->
        get "pause" s1 = (Ok v2, s2) ->
        get "volume" s2 = (Raise e, s3) ->
        status_snapshot int_of_str s = (Raise e, s3))
  /\ (forall v1 s1 f v2 s2 v3 s3 e,
        get "path" s = (Ok v1, s1) ->
        os_path_basename (py_or v1 (JStr "")) = Ok f ->
        get "pause" s1 = (Ok v2, s2) ->
        get "volume" s2 = (Ok v3, s3) ->
        py_int int_of_str (py_or v3 (JInt 0)) = Raise e ->
        status_snapshot int_of_str s = (Raise e, s3))
  /\ (forall d s',
        status_snapshot int_of_str s = (Ok d, s') ->
        exists v1 s1 v2 s2 v3 f vol,
          get "path" s = (Ok v1, s1)
          /\ get "pause" s1 = (Ok v2, s2)
          /\ get "volume" s2 = (Ok v3, s')
          /\ os_path_basename (py_or v1 (JStr "")) = Ok f
          /\ py_int int_of_str (py_or v3 (JInt 0)) = Ok vol
          /\ d = [("running", JBool true); ("file", JStr f);
                  ("paused", JBool (truthy v2)); ("volume", JInt vol)])
  /\ (forall v, truthy v = false ->
        os_path_basename (py_or v (JStr "")) = Ok ""
        /\ py_int int_of_str (py_or v (JInt 0)) = Ok 0%Z).
Proof.
  split; [apply status_two_ways|].
  split. { intros Habs. unfold status_snapshot, bind. now rewrite get_absent. }
  split. { intros Hex Hr. pose proof (get_present "path" s Hex) as Hg.
           rewrite Hr in Hg. unfold status_snapshot, bind.
           destruct (get "path" s) as [r s1]. simpl in Hg. now subst r. }
  split. { intros d Hex Hr. pose proof (get_present "path" s Hex) as Hg.
           rewrite Hr in Hg. unfold status_snapshot, bind.
           destruct (get "path" s) as [r s1]. simpl in Hg. now subst r. }
  split. { intros e s1 H1. unfold status_snapshot, bind. now rewrite H1. }
  split. { intros v1 s1 e H1 F1. unfold status_snapshot, bind, lift.
           now rewrite H1, F1. }
  split. { intros v1 s1 f e s2 H1 F1 H2. unfold status_snapshot, bind, lift.
           now rewrite H1, F1, H2. }
  split. { intros v1 s1 f v2 s2 e s3 H1 F1 H2 H3. unfold status_snapshot, bind, lift.
           now rewrite H1, F1, H2, H3. }
  split. { intros v1 s1 f v2 s2 v3 s3 e H1 F1 H2 H3 F3.
           unfold status_snapshot, bind, lift. now rewrite H1, F1, H2, H3, F3. }
  split; [intros d s'; apply status_snapshot_ok|].
  intros v Hv. unfold py_or. rewrite Hv. now split.
Qed.

Lemma status_propagates_channel_errors_witness :
  (socket_path movie_gone ∉ files movie_gone)
  /\ status_snapshot plain_int_of_str movie_gone = (Raise ChannelUnavailable, movie_gone).
Proof.
  assert (socket_path movie_gone ∉ files movie_gone) as Habs
    by (apply absent_by_decide; vm_compute; reflexivity).
  split; [exact Habs|].
  exact (proj1 (proj2 (status_propagates_channel_errors plain_int_of_str movie_gone)) Habs).
Defined.

(** ** Answers without data *)

Lemma dict_get_missing (key : string) (kvs : list (string * json)) :
  key ∉ map fst kvs -> dict_get key kvs = JNull.
Proof.
  induction kvs as [|[k v] kvs IH]; intros Hk; [reflexivity|].
  simpl in *. apply not_elem_of_cons in Hk as [Hne Hrest].
  destruct (String.eqb_spec k key) as [->|_]; [contradiction | now apply IH].
Qed.

(** C10.  When the answer to a property read decodes to an object without a
    [data] item, [get] returns the null value; the callers turn a null into
    their default: [status] into the empty file name, [paused] false and
    volume zero, [volume] into the zero of its notification text. *)
Theorem missing_data_defaults (int_of_str : string -> option Z) (s : State) :
  (forall prop kvs,
      socket_path s ∈ files s -> reply (peek s) = Decoded (JObj kvs) ->
      "data" ∉ map fst kvs ->
      fst (get prop s) = Ok JNull)
  /\ (os_path_basename (py_or JNull (JStr "")) = Ok ""
      /\ truthy JNull = false
      /\ py_int int_of_str (py_or JNull (JInt 0)) = Ok 0%Z)
  /\ (forall s1 s2 s3,
        get "path" s = (Ok JNull, s1) ->
        get "pause" s1 = (Ok JNull, s2) ->
        get "volume" s2 = (Ok JNull, s3) ->
        status_snapshot int_of_str s
        = (Ok [("running", JBool true); ("file", JStr "");
               ("paused", JBool false); ("volume", JInt 0)], s3))
  /\ (forall delta s1 s2,
        command ["add"; "volume"; str delta] s = (Ok tt, s1) ->
        get "volume" s1 = (Ok JNull, s2) ->
        volume int_of_str delta s = show_text (SPEAKER +:+ "0%") 1000 s2).
Proof.
  split.
  { intros prop kvs Hex Hr Hk. rewrite (get_present prop s Hex), Hr. simpl.
    now rewrite dict_get_missing. }
  split; [repeat split|].
  split.
  { intros s1 s2 s3 H1 H2 H3. unfold status_snapshot, bind.
    rewrite H1. simpl. rewrite H2, H3. reflexivity. }
  intros delta s1 s2 H1 H2. unfold volume, bind. rewrite H1, H2. reflexivity.
Qed.

Lemma missing_data_defaults_witness :
  fst (get "volume" mute_player) = Ok JNull
  /\ fst (status_snapshot plain_int_of_str mute_player)
     = Ok [("running", JBool true); ("file", JStr "");
           ("paused", JBool false); ("volume", JInt 0)].
Proof.
  destruct (missing_data_defaults plain_int_of_str mute_player) as (Hget & _ & Hst & _).
  split.
  - apply (Hget "volume" [("error", JStr "property unavailable")]).
    + apply present_by_decide. vm_compute. reflexivity.
    + reflexivity.
    + simpl. intros Hin. apply list_elem_of_singleton in Hin. discriminate Hin.
  - rewrite (Hst (snd (get "path" mute_player))
                 (snd (get "pause" (snd (get "path" mute_player))))
                 (snd (get "volume" (snd (get "pause" (snd (get "path" mute_player)))))));
      [reflexivity | vm_compute; reflexivity ..].
Defined.

(** ** stop *)

Lemma moved_not_running (s s' : State) :
  moved s s' -> running s = false -> running s' = false.
Proof.
  intros [_ B F _ _ _]. unfold running. rewrite B.
  destruct (proc s) as [h|]; [|reflexivity].
  destruct (procs s' !! h) as [p'|] eqn:Hp'; [|reflexivity].
  destruct (Forall2_lookup_r _ _ _ _ _ F Hp') as (p & Hp & _ & Himp).
  rewrite Hp. destruct (alive p'); [|reflexivity]. intros Hd. rewrite Himp in Hd; auto.
Qed.

Lemma cleared_cleared (s : State) : cleared (cleared s) = cleared s.
Proof.
  unfold cleared at 1. change (set_proc None (cleared s)) with (cleared s).
  apply unlinked_absent, cleared_vacant.
Qed.

Lemma cleared_fresh (s : State) :
  proc s = None -> socket_path s ∉ listed s -> cleared s = s.
Proof.
  intros Hn Habs. unfold cleared.
  rewrite unlinked_absent by exact Habs. destruct s; simpl in *; now subst.
Qed.

Lemma stop_clear_keeps (s : State) :
  proc (snd (stop_clear s)) = None
  /\ procs (snd (stop_clear s)) = procs s
  /\ outbox (snd (stop_clear s)) = outbox s
  /\ env (snd (stop_clear s)) = env s
  /\ socket_path (snd (stop_clear s)) = socket_path s
  /\ protected (snd (stop_clear s)) = protected s
  /\ running (snd (stop_clear s)) = false.
Proof. rewrite stop_clear_eq. destruct (blocked s); now repeat split. Qed.

Lemma stop_clear_twice (s : State) :
  stop_clear (snd (stop_clear s)) = stop_clear s.
Proof.
  rewrite !stop_clear_eq. destruct (blocked s) as [why|] eqn:Hb; cbn [snd].
  - change (blocked (set_proc None s)) with (blocked s). now rewrite Hb.
  - change (blocked (cleared s)) with (blocked s). now rewrite Hb, cleared_cleared.
Qed.

Lemma apply_acts_path (l : list Act) (s : State) :
  socket_path (apply_acts l s) = socket_path s.
Proof. apply (mv_path _ _ (apply_acts_moved l s)). Qed.

Lemma apply_acts_unprotected (l : list Act) (s : State) (path : string) :
  protected s !! path = None ->
  forallb (fun a => negb (protects path a)) l = true ->
  protected (apply_acts l s) !! path = None.
Proof.
  revert s. induction l as [|a l IH]; intros s Hp Hl; [exact Hp|].
  simpl in *. apply andb_true_iff in Hl as [Ha Hl]. apply IH; [|exact Hl].
  destruct a as [q|q|q r|q|h code]; simpl in *; auto.
  - destruct (decide (q = path)) as [->|Hne];
      [apply lookup_delete_eq | now rewrite lookup_delete_ne].
  - apply negb_true_iff, String.eqb_neq in Ha. now rewrite lookup_insert_ne.
Qed.

Lemma stop_seq_idle (moves : list (list Act)) (s : State) :
  running s = false ->
  Forall (fun r => r = Ok tt \/ exists why, r = Raise (remove_error why))
         (fst (stop_seq moves s))
  /\ running (snd (stop_seq moves s)) = false
  /\ outbox (snd (stop_seq moves s)) = outbox s
  /\ env (snd (stop_seq moves s)) = env s.
Proof.
  revert s. induction moves as [|l rest IH]; intros s Hr; [now repeat split|].
  simpl.
  assert (running (apply_acts l s) = false) as Hr1
    by (eapply moved_not_running; [apply apply_acts_moved | exact Hr]).
  rewrite (stop_idle _ Hr1).
  destruct (stop_clear_keeps (apply_acts l s)) as (_ & _ & Ho & He & _ & _ & Hrun).
  pose proof (stop_clear_eq (apply_acts l s)) as Heq.
  destruct (stop_clear (apply_acts l s)) as [r s1]. cbn [snd] in *.
  destruct (IH s1 Hrun) as (Hall & Hrun' & Hout & Henv).
  destruct (stop_seq rest s1) as [rs s2]. cbn [fst snd] in *.
  split; [|split; [exact Hrun'|]].
  - constructor; [|exact Hall].
    destruct (blocked (apply_acts l s)) as [why|] eqn:Hb; inversion Heq; eauto.
  - now rewrite Hout, Henv, Ho, He, apply_acts_outbox, apply_acts_env.
Qed.

Lemma stop_seq_free (moves : list (list Act)) (s : State) :
  running s = false ->
  protected s !! socket_path s = None ->
  unprotected (socket_path s) moves = true ->
  Forall (fun r => r = Ok tt) (fst (stop_seq moves s)).
Proof.
  revert s. induction moves as [|l rest IH]; intros s Hr Hp Hu; [constructor|].
  simpl in *. apply andb_true_iff in Hu as [Hl Hu].
  assert (running (apply_acts l s) = false) as Hr1
    by (eapply moved_not_running; [apply apply_acts_moved | exact Hr]).
  pose proof (apply_acts_unprotected l s _ Hp Hl) as Hp1.
  rewrite <- (apply_acts_path l s) in Hp1.
  rewrite (stop_idle _ Hr1), stop_clear_eq. unfold blocked at 1. rewrite Hp1.
  specialize (IH (cleared (apply_acts l s)) eq_refl).
  change (socket_path (cleared (apply_acts l s))) with (socket_path (apply_acts l s)) in IH.
  change (protected (cleared (apply_acts l s))) with (protected (apply_acts l s)) in IH.
  rewrite apply_acts_path in IH, Hp1. specialize (IH Hp1 Hu).
  destruct (stop_seq rest (cleared (apply_acts l s))) as [rs s2].
  now constructor.
Qed.

(** C6, as stated, fails twice over.  With no session active, [stop()] is not
    a no-op: after the player ended by itself the controller still holds its
    handle and the socket file is still there, and [stop()] clears the one
    and removes the other.  Nor does it never fail: with a directory at the
    socket path, [stop()] on a controller that never played raises. *)
Lemma stop_idle_changes_state_or_raises :
  running movie_over = false
  /\ proc movie_over = Some O
  /\ bool_decide (socket_path movie_over ∈ files movie_over) = true
  /\ fst (stop movie_over) = Ok tt
  /\ proc (snd (stop movie_over)) = None
  /\ bool_decide (socket_path movie_over ∈ files (snd (stop movie_over))) = false
  /\ running dir_at_socket = false
  /\ proc dir_at_socket = None
  /\ stop dir_at_socket = (Raise IsADirectoryError, dir_at_socket).
Proof. vm_compute. repeat split; reflexivity. Qed.

(** C6, amended.  While no live process is tracked, [stop()] contacts no one,
    waits for nothing and touches no process: it forgets the handle of an
    ended process and removes what is at the socket path, if anything.  It
    returns unless that removal fails other than for a missing path (a
    directory there, no permission, another error of the operating system),
    and then raises the removal's error with the handle already forgotten.
    On a controller with no handle and nothing at the socket path it changes
    nothing at all, and a second [stop()] right after a first gives the same
    outcome and changes nothing more.  Along any sequence of [stop()] calls,
    whatever the world does in between, nothing is sent and no tick is taken,
    and every call returns as long as the world puts nothing that cannot be
    unlinked at the socket path. *)
Theorem stop_idle_forgets_and_cleans (s : State) :
  running s = false ->
  stop s = match blocked s with
           | None => (Ok tt, cleared s)
           | Some why => (Raise (remove_error why), set_proc None s)
           end
  /\ (blocked s = None -> socket_path s ∉ listed s ->
      stop s = (Ok tt, set_proc None s))
  /\ (blocked s = None -> socket_path s ∉ listed s -> proc s = None ->
      stop s = (Ok tt, s))
  /\ (proc (snd (stop s)) = None
      /\ procs (snd (stop s)) = procs s
      /\ outbox (snd (stop s)) = outbox s
      /\ env (snd (stop s)) = env s)
  /\ stop (snd (stop s)) = stop s
  /\ (forall moves,
        Forall (fun r => r = Ok tt \/ exists why, r = Raise (remove_error why))
               (fst (stop_seq moves s))
        /\ running (snd (stop_seq moves s)) = false
        /\ outbox (snd (stop_seq moves s)) = outbox s
        /\ env (snd (stop_seq moves s)) = env s)
  /\ (forall moves,
        blocked s = None ->
        unprotected (socket_path s) moves = true ->
        Forall (fun r => r = Ok tt) (fst (stop_seq moves s))).
Proof.
  intros Hr. rewrite (stop_idle s Hr).
  split; [apply stop_clear_eq|].
  split.
  { intros Hb Habs. rewrite stop_clear_eq, Hb.
    unfold cleared. now rewrite unlinked_absent. }
  split.
  { intros Hb Habs Hn. rewrite stop_clear_eq, Hb. now rewrite cleared_fresh. }
  split. { destruct (stop_clear_keeps s) as (H1 & H2 & H3 & H4 & _). now repeat split. }
  split.
  { destruct (stop_clear_keeps s) as (_ & _ & _ & _ & _ & _ & Hrun).
    rewrite (stop_idle _ Hrun). apply stop_clear_twice. }
  split; [intros moves; now apply stop_seq_idle|].
  intros moves Hp Hu. now apply stop_seq_free.
Qed.

Lemma stop_idle_forgets_and_cleans_witness :
  running movie_over = false
  /\ stop movie_over = (Ok tt, cleared movie_over)
  /\ fst (stop_seq [[]; [Touch MPV_SOCKET]; []] movie_over) = [Ok tt; Ok tt; Ok tt].
Proof.
  assert (running movie_over = false) as Hr by (vm_compute; reflexivity).
  split; [exact Hr|]. split.
  - exact (proj1 (stop_idle_forgets_and_cleans movie_over Hr)).
  - vm_compute. reflexivity.
Defined.

Lemma wait_or_kill_eq (h : nat) (s : State) :
  wait_or_kill h s = (Ok tt, after_wait h s).
Proof.
  unfold wait_or_kill, try_except, wait, bind, after_wait. prims.
  destruct (procs (apply_acts (acts (peek s)) (set_env (tl (env s)) s)) !! h)
    as [[a [rc|]]|]; reflexivity.
Qed.

(** C3, as stated, fails: with a running player that never created its
    socket, [stop()] raises and leaves the player running and tracked. *)
Lemma stop_raises_without_socket :
  running wedged = true
  /\ stop wedged = (Raise ChannelUnavailable, wedged).
Proof. vm_compute. split; reflexivity. Qed.

(** C3, amended.  With no live process tracked, [stop()] sends nothing: it
    forgets the handle and removes the socket file.  With one tracked, it
    sends [quit] first.  When the socket path is missing it raises
    ChannelUnavailable before anything is sent and leaves the state as it
    was; a refused connection or an undecodable answer raises as well, with
    the handle still tracked.  When the answer decodes, it waits, which takes
    one tick of the world, kills the process only if it has not ended by
    then, forgets the handle and removes the socket file.  In both cases the
    removal is the last step: [stop()] returns when nothing is at the socket
    path or what is there can be unlinked, and raises the removal's error,
    with the handle already forgotten and the process ended, when the removal
    fails for another reason than a missing path.  Every exchange is taken to
    end. *)
Theorem stop_needs_channel (s : State) :
  (running s = false ->
   stop s = match blocked s with
            | None => (Ok tt, cleared s)
            | Some why => (Raise (remove_error why), set_proc None s)
            end)
  /\ (running s = true -> socket_path s ∉ files s ->
      stop s = (Raise ChannelUnavailable, s))
  /\ (running s = true -> socket_path s ∈ files s ->
      match reply (peek s) with
      | Decoded _ =>
          exists h s1,
            proc s = Some h
            /\ command ["quit"] s = (Ok tt, s1)
            /\ outbox s1 = (outbox s ++ [quit_payload])%list
            /\ env s1 = tl (env s)
            /\ stop s = match blocked (after_wait h s1) with
                        | None => (Ok tt, cleared (after_wait h s1))
                        | Some why =>
                            (Raise (remove_error why), set_proc None (after_wait h s1))
                        end
            /\ (forall p, procs (snd (stop s)) !! h = Some p -> alive p = false)
            /\ proc (snd (stop s)) = None
            /\ env (snd (stop s)) = tl (tl (env s))
            /\ outbox (snd (stop s)) = (outbox s ++ [quit_payload])%list
            /\ (forall u s', stop s = (Ok u, s') -> socket_path s' ∉ listed s')
      | Refused =>
          exists s', stop s = (Raise ConnectionRefusedError, s')
            /\ moved s s' /\ outbox s' = outbox s
      | Garbage d =>
          exists s', stop s = (Raise (decode_error d), s') /\ moved s s'
      end).
Proof.
  split; [intros Hr; rewrite (stop_idle s Hr); apply stop_clear_eq|]. split.
  - intros Hr Habs. destruct (running_true_tracked s Hr) as [h Hh].
    rewrite (stop_running s h Hh Hr). now rewrite command_absent.
  - intros Hr Hex. destruct (running_true_tracked s Hr) as [h Hh].
    pose proof (stop_ok_clean s) as Hclean.
    rewrite (stop_running s h Hh Hr) in *.
    destruct (command_present ["quit"] s Hex) as (Hres & He & Ho).
    pose proof (calm_command ["quit"] s) as Hm.
    destruct (command ["quit"] s) as [r s1]. cbn [fst snd] in *.
    destruct (reply (peek s)) as [|d|j]; subst r.
    + exists s1. rewrite app_nil_r in Ho. auto.
    + exists s1. auto.
    + exists h, s1. split; [exact Hh|]. split; [reflexivity|].
      split; [exact Ho|]. split; [exact He|].
      destruct (wait_or_kill_spec h s1) as (s2 & Hw & Hm2 & Hdead & He2 & Ho2).
      rewrite wait_or_kill_eq in *. inversion Hw; subst s2. cbn [snd] in *.
      destruct (stop_clear_keeps (after_wait h s1)) as (K1 & K2 & K3 & K4 & _).
      split; [apply stop_clear_eq|].
      split; [rewrite K2; exact Hdead|]. split; [exact K1|].
      split; [now rewrite K4, He2, He|]. split; [now rewrite K3, Ho2, Ho|].
      intros [] s' Hs'. now apply (Hclean tt s').
Qed.

Lemma stop_needs_channel_witness :
  running wedged = true
  /\ (socket_path wedged ∉ files wedged)
  /\ stop wedged = (Raise ChannelUnavailable, wedged).
Proof.
  assert (running wedged = true) as Hr by (vm_compute; reflexivity).
  assert (socket_path wedged ∉ files wedged) as Habs
    by (apply absent_by_decide; vm_compute; reflexivity).
  split; [exact Hr|]. split; [exact Habs|].
  exact (proj1 (proj2 (stop_needs_channel wedged)) Hr Habs).
Defined.

(** ** start *)

Lemma stop_keeps_path (s : State) : socket_path (snd (stop s)) = socket_path s.
Proof.
  destruct (running s) eqn:Hr; [|rewrite stop_idle by exact Hr; apply stop_clear_keeps].
  destruct (running_true_tracked s Hr) as [h Hh].
  rewrite (stop_running s h Hh Hr).
  pose proof (calm_command ["quit"] s) as Hm.
  destruct (command ["quit"] s) as [[[]|e] s1]; cbn [snd] in *; [|apply Hm].
  destruct (wait_or_kill_spec h s1) as (s2 & -> & Hm2 & _). cbn [snd].
  destruct (stop_clear_keeps s2) as (_ & _ & _ & _ & -> & _).
  now rewrite (mv_path _ _ Hm2), (mv_path _ _ Hm).
Qed.

Lemma apply_act_keeps (a : Act) (s : State) (h : nat) (p : Proc) :
  procs s !! h = Some p -> ends h a = false -> procs (apply_act a s) !! h = Some p.
Proof.
  intros Hp Ha. destruct a as [q|q|q r|q|h' code]; simpl in *; auto.
  apply Nat.eqb_neq in Ha. unfold end_in.
  destruct (procs s !! h') as [p'|]; [|exact Hp].
  destruct (alive p'); [|exact Hp].
  now rewrite list_lookup_insert_ne.
Qed.

Lemma apply_acts_keeps (l : list Act) (s : State) (h : nat) (p : Proc) :
  procs s !! h = Some p -> forallb (fun a => negb (ends h a)) l = true ->
  procs (apply_acts l s) !! h = Some p.
Proof.
  revert s. induction l as [|a l IH]; intros s Hp Hl; [exact Hp|].
  simpl in *. apply andb_true_iff in Hl as [Ha Hl].
  apply IH; [|exact Hl]. apply apply_act_keeps; [exact Hp|].
  now apply negb_true_iff.
Qed.

Lemma slept_env (s : State) : env (slept s) = tl (env s).
Proof. unfold slept. now rewrite apply_acts_env. Qed.

Lemma slept_moved (s : State) : moved s (slept s).
Proof. apply (calm_time_sleep s). Qed.

Lemma slept_keeps (s : State) (h : nat) (p : Proc) (n : nat) :
  procs s !! h = Some p -> left_alone h (take (S n) (env s)) = true ->
  procs (slept s) !! h = Some p /\ left_alone h (take n (env (slept s))) = true.
Proof.
  intros Hp Hl. rewrite slept_env. unfold slept, peek.
  destruct (env s) as [|t rest]; simpl in *.
  - split; [exact Hp | now destruct n].
  - apply andb_true_iff in Hl as [Ht Hrest]. split; [|exact Hrest].
    now apply apply_acts_keeps.
Qed.

Lemma wait_socket_keeps (n : nat) (s : State) (h : nat) (p : Proc) :
  procs s !! h = Some p -> left_alone h (take n (env s)) = true ->
  procs (snd (wait_socket n s)) !! h = Some p.
Proof.
  revert s. induction n as [|n IH]; intros s Hp Hl; [exact Hp|].
  rewrite wait_socket_S.
  destruct (bool_decide (socket_path s ∈ files s)); [exact Hp|].
  destruct (slept_keeps s h p n Hp Hl) as [Hp' Hl']. now apply IH.
Qed.

Lemma wait_socket_never (n : nat) (s : State) :
  (forall k, (k < n)%nat -> socket_path s ∉ files (sleeps k s)) ->
  wait_socket n s = (Ok false, sleeps n s).
Proof.
  revert s. induction n as [|n IH]; intros s Hnever; [reflexivity|].
  rewrite wait_socket_S.
  rewrite bool_decide_eq_false_2 by (apply (Hnever O); lia).
  simpl. apply IH. intros k Hk.
  rewrite (mv_path _ _ (slept_moved s)). apply (Hnever (S k)). lia.
Qed.

Lemma sleeps_env (n : nat) (s : State) : env (sleeps n s) = drop n (env s).
Proof.
  revert s. induction n as [|n IH]; intros s; simpl; [reflexivity|].
  rewrite IH, slept_env. destruct (env s); simpl; [apply drop_nil | reflexivity].
Qed.

(** Polling a socket path that never appears: [n] sleeps, after which the
    controller's attributes are as before and the process at [h] is the same,
    or the same ended. *)
Lemma poll_never (n : nat) (s : State) (h : nat) (p0 : Proc) :
  (forall k, (k < n)%nat -> socket_path s ∉ files (sleeps k s)) ->
  procs s !! h = Some p0 ->
  wait_socket n s = (Ok false, sleeps n s)
  /\ proc (sleeps n s) = proc s
  /\ env (sleeps n s) = drop n (env s)
  /\ exists p,
       procs (sleeps n s) !! h = Some p
       /\ args p = args p0
       /\ (left_alone h (take n (env s)) = true ->
           alive p0 = true /\ proc s = Some h ->
           alive p = true /\ running (sleeps n s) = true).
Proof.
  intros Hnever Hnew.
  pose proof (wait_socket_never n s Hnever) as Hw.
  pose proof (calm_wait_socket n s) as Hm.
  pose proof (wait_socket_keeps n s h p0 Hnew) as Hk.
  rewrite Hw in Hm, Hk. cbn [snd] in Hm, Hk.
  split; [exact Hw|]. split; [apply (mv_proc _ _ Hm)|]. split; [apply sleeps_env|].
  destruct (Forall2_lookup_l _ _ _ _ _ (mv_procs _ _ Hm) Hnew) as (p & Hp & Hargs & _).
  exists p. split; [exact Hp|]. split; [exact Hargs|].
  intros Hl [Hal Hh]. specialize (Hk Hl). rewrite Hk in Hp. inversion Hp; subst p.
  split; [exact Hal|]. unfold running. rewrite (mv_proc _ _ Hm), Hh, Hk. exact Hal.
Qed.

(** C4, as stated, fails: after a [start] that times out, the controller
    still tracks the process it launched, the process runs on, and the next
    [stop()] raises. *)
Lemma start_timeout_leaves_handle :
  start "/media/a.mkv" (MPVController ∅ []) = (Raise LaunchTimeout, wedged)
  /\ proc wedged = Some O
  /\ running wedged = true
  /\ fst (stop wedged) = Raise ChannelUnavailable.
Proof. vm_compute. repeat split; reflexivity. Qed.

(** C4, amended.  When the [stop] that opens [start] returns and the socket
    path exists at none of the 50 polls, [start] raises LaunchTimeout after 50
    sleeps and leaves the controller tracking the process it launched for the
    requested media: the handle is not cleared and the controller does not end
    the process, which is still running unless it ended by itself. *)
Theorem start_timeout_keeps_handle (media : string) (s s0 : State) :
  stop s = (Ok tt, s0) ->
  (forall k, (k < 50)%nat -> socket_path s ∉ files (sleeps k (launched media s0))) ->
  start media s = (Raise LaunchTimeout, sleeps 50 (launched media s0))
  /\ proc (sleeps 50 (launched media s0)) = Some (length (procs s0))
  /\ env (sleeps 50 (launched media s0)) = drop 50 (env s0)
  /\ exists p,
       procs (sleeps 50 (launched media s0)) !! length (procs s0) = Some p
       /\ args p = launch_cmd (socket_path s) media
       /\ (left_alone (length (procs s0)) (take 50 (env s0)) = true ->
           alive p = true /\ running (sleeps 50 (launched media s0)) = true).
Proof.
  intros Hstop Hnever.
  assert (socket_path s0 = socket_path s) as Hpath
    by (rewrite <- (stop_keeps_path s); now rewrite Hstop).
  assert (procs (launched media s0) !! length (procs s0)
          = Some {| args := launch_cmd (socket_path s) media; returncode := None |})
    as Hnew.
  { rewrite <- Hpath. unfold launched. cbn [procs set_proc note_live set_procs].
    now rewrite lookup_app_r, Nat.sub_diag by lia. }
  assert (forall k, (k < 50)%nat ->
            socket_path (launched media s0) ∉ files (sleeps k (launched media s0)))
    as Hnever'.
  { intros k Hk. change (socket_path (launched media s0)) with (socket_path s0).
    rewrite Hpath. now apply Hnever. }
  destruct (poll_never 50 (launched media s0) _ _ Hnever' Hnew)
    as (Hw & Hproc & Henv & p & Hp & Hargs & Hal).
  split; [rewrite start_cases, Hstop, Hw; reflexivity|].
  split; [rewrite Hproc; reflexivity|].
  split; [rewrite Henv; reflexivity|].
  exists p. split; [exact Hp|]. split; [exact Hargs|].
  intros Hl. apply Hal; [exact Hl|]. split; reflexivity.
Qed.

Lemma sleeps_quiet (k : nat) (s : State) :
  env s = [] -> files (sleeps k s) = files s.
Proof.
  revert s. induction k as [|k IH]; intros s He; [reflexivity|].
  simpl. rewrite IH by (now rewrite slept_env, He).
  unfold slept, peek. now rewrite He.
Qed.

Lemma start_timeout_keeps_handle_witness :
  start "/media/a.mkv" (MPVController ∅ [])
  = (Raise LaunchTimeout, sleeps 50 (launched "/media/a.mkv" (MPVController ∅ [])))
  /\ proc (sleeps 50 (launched "/media/a.mkv" (MPVController ∅ []))) = Some O.
Proof.
  destruct (start_timeout_keeps_handle "/media/a.mkv"
              (MPVController ∅ []) (MPVController ∅ [])) as (H1 & H2 & _).
  - vm_compute. reflexivity.
  - intros k Hk. rewrite sleeps_quiet by reflexivity.
    apply absent_by_decide. vm_compute. reflexivity.
  - split; [exact H1 | exact H2].
Defined.

(** ** One player at a time *)




(** ** The command line *)

(** C7, as stated, fails: the command line of the launched player has no
    option to keep running when idle. *)
Lemma launch_has_no_idle_option :
  map args (procs playing_movie)
  = [ ["mpv"; "--input-ipc-server=/tmp/mpv-socket";
       "--audio-device=alsa/hdmi:CARD=PCH,DEV=0"; "--fullscreen"; "--sid 1";
       "--no-terminal"; "/media/movie.mkv"] ]
  /\ existsb keep_running_when_idle (launch_cmd MPV_SOCKET "/media/movie.mkv") = false.
Proof. vm_compute. split; reflexivity. Qed.

(** C7, amended.  Whenever [start(media)] gets past its opening [stop], it
    launches exactly one process, whose command line is [mpv], the option
    naming the socket path, the fixed options (audio device, fullscreen,
    subtitle track 1, no terminal) and the media path last; when the opening
    [stop] raises, [start] raises the same error and launches nothing. *)
Theorem start_command_line (media : string) (s : State) :
  (forall e s', stop s = (Raise e, s') -> start media s = (Raise e, s'))
  /\ (forall u s0, stop s = (Ok u, s0) ->
        length (procs (snd (start media s))) = S (length (procs s0))
        /\ exists p,
             procs (snd (start media s)) !! length (procs s0) = Some p
             /\ args p = [ "mpv"; "--input-ipc-server=" +:+ socket_path s;
                           "--audio-device=alsa/hdmi:CARD=PCH,DEV=0";
                           "--fullscreen"; "--sid 1"; "--no-terminal"; media ]
             /\ last (args p) = Some media).
Proof.
  split; [intros e s' Hstop; rewrite start_cases, Hstop; reflexivity|].
  intros [] s0 Hstop.
  assert (socket_path s0 = socket_path s) as Hpath
    by (rewrite <- (stop_keeps_path s); now rewrite Hstop).
  assert (snd (start media s) = snd (wait_socket 50 (launched media s0))) as ->.
  { rewrite start_cases, Hstop.
    now destruct (wait_socket 50 (launched media s0)) as [[[|]|e] s']. }
  pose proof (calm_wait_socket 50 (launched media s0)) as Hm.
  assert (procs (launched media s0) !! length (procs s0)
          = Some {| args := launch_cmd (socket_path s) media; returncode := None |})
    as Hnew.
  { rewrite <- Hpath. unfold launched. cbn [procs set_proc note_live set_procs].
    now rewrite lookup_app_r, Nat.sub_diag by lia. }
  split.
  - rewrite <- (Forall2_length _ _ _ (mv_procs _ _ Hm)).
    unfold launched. cbn [procs set_proc note_live set_procs].
    rewrite length_app. simpl. lia.
  - destruct (Forall2_lookup_l _ _ _ _ _ (mv_procs _ _ Hm) Hnew) as (p & Hp & Hargs & _).
    exists p. split; [exact Hp|]. rewrite Hargs. split; reflexivity.
Qed.

Lemma start_command_line_witness :
  exists p, procs playing_movie !! O = Some p
    /\ last (args p) = Some "/media/movie.mkv".
Proof.
  destruct (proj2 (start_command_line "/media/movie.mkv" (MPVController ∅ movie_script))
              tt (MPVController ∅ movie_script)) as (_ & p & Hp & _ & Hlast).
  - vm_compute. reflexivity.
  - exists p. split; [exact Hp | exact Hlast].
Defined.

(** ** Calls that overlap *)






(** ** The controls on a controller that never started a player *)

Lemma controls_need_socket_witness :
  (socket_path (MPVController ∅ []) ∉ files (MPVController ∅ []))
  /\ pause (MPVController ∅ []) = (Raise ChannelUnavailable, MPVController ∅ [])
  /\ seek 10 (MPVController ∅ []) = (Raise ChannelUnavailable, MPVController ∅ [])
  /\ volume plain_int_of_str 10 (MPVController ∅ [])
     = (Raise ChannelUnavailable, MPVController ∅ []).
Proof.
  assert (socket_path (MPVController ∅ []) ∉ files (MPVController ∅ [])) as Habs
    by (apply absent_by_decide; vm_compute; reflexivity).
  destruct (proj1 (controls_need_socket plain_int_of_str (MPVController ∅ []) 10) Habs)
    as (Hp & Hs & Hv & _).
  split; [exact Habs|]. split; [exact Hp|]. split; [exact Hs | exact Hv].
Defined.

(** * The rest of the controller *)

(** ** Vocabulary *)

(** Two states show the same world and the same controller attributes; they
    may differ in what was delivered and in the socket counters. *)
Definition same_world (s s' : State) : Prop :=
  socket_path s = socket_path s' /\ proc s = proc s'
  /\ files s = files s' /\ procs s = procs s' /\ env s = env s'
  /\ protected s = protected s' /\ dangling s = dangling s'.

(** The payload of [command(cmd)]. *)
Definition command_payload (cmd : list string) : json :=
  JObj [("command", JArr (map JStr cmd))].

(** The payload of [get(prop)]. *)
Definition get_payload (prop : string) : json :=
  JObj [("command", JArr [JStr "get_property"; JStr prop])].

(** What [command] returns for each fate of the exchange. *)
Definition acknowledged (r : Reply) : Res unit :=
  match r with
  | Refused => Raise ConnectionRefusedError
  | Garbage d => Raise (decode_error d)
  | Decoded _ => Ok tt
  end.

(** What [show_text] returns for each fate of the exchange: its handler
    catches the [RecursionError] of an answer nested too deep, a
    [RuntimeError] like the missing socket path, and nothing else. *)
Definition notified (r : Reply) : Res unit :=
  match r with
  | Refused => Raise ConnectionRefusedError
  | Garbage NotUTF8 => Raise UnicodeDecodeError
  | Garbage NotJSON => Raise JSONDecodeError
  | Garbage TooDeep => Ok tt
  | Decoded _ => Ok tt
  end.

(** The text [seek] shows. *)
Definition seek_text (delta : Z) : string :=
  (if Z.ltb 0 delta then FORWARD else BACKWARD) +:+ str (Z.abs delta) +:+ " s".

(** ** One exchange, seen from the world *)

Lemma same_world_refl (s : State) : same_world s s.
Proof. now repeat split. Qed.

Lemma same_world_sym (s s' : State) : same_world s s' -> same_world s' s.
Proof. intros (A & B & C & D & E & F & G). now repeat split. Qed.

Lemma same_world_trans (s1 s2 s3 : State) :
  same_world s1 s2 -> same_world s2 s3 -> same_world s1 s3.
Proof.
  intros (A & B & C & D & E & F & G) (A' & B' & C' & D' & E' & F' & G').
  repeat split; congruence.
Qed.

Lemma apply_act_same_world (a : Act) (s s' : State) :
  same_world s s' -> same_world (apply_act a s) (apply_act a s').
Proof.
  intros (A & B & C & D & E & F & G).
  destruct a as [p|p|p r|p|h code]; repeat split; simpl; congruence.
Qed.

Lemma apply_acts_same_world (l : list Act) (s s' : State) :
  same_world s s' -> same_world (apply_acts l s) (apply_acts l s').
Proof.
  revert s s'. induction l as [|a l IH]; intros s s' H; [exact H|].
  simpl. apply IH. now apply apply_act_same_world.
Qed.

Lemma slept_same_world (s s' : State) :
  same_world s s' -> same_world (slept s) (slept s').
Proof.
  intros H. pose proof H as (A & B & C & D & E & F & G). unfold slept, peek. rewrite E.
  apply apply_acts_same_world. repeat split; simpl; congruence.
Qed.

Lemma same_world_peek (s s' : State) : same_world s s' -> peek s = peek s'.
Proof. intros (_ & _ & _ & _ & E & _). unfold peek. now rewrite E. Qed.

Lemma send_recv_world (payload : json) (s : State) :
  socket_path s ∈ files s -> same_world (snd (send_recv payload s)) (slept s).
Proof.
  intros Hex. unfold send_recv. prims.
  rewrite bool_decide_eq_true_2 by exact Hex. prims.
  unfold finally, exchange, bind. prims.
  change (peek (set_open_conns (S (open_conns s)) s)) with (peek s).
  assert (same_world
            (apply_acts (acts (peek s))
               (set_env (tl (env s)) (set_open_conns (S (open_conns s)) s)))
            (slept s)) as H
    by (apply apply_acts_same_world; now repeat split).
  destruct H as (A & B & C & D & E & F & G).
  destruct (reply (peek s)); simpl; now repeat split.
Qed.

Lemma command_world (cmd : list string) (s : State) :
  socket_path s ∈ files s -> same_world (snd (command cmd s)) (slept s).
Proof.
  intros Hex. pose proof (send_recv_world (command_payload cmd) s Hex) as H.
  unfold command, bind. fold (command_payload cmd).
  now destruct (send_recv (command_payload cmd) s) as [[j|e] s1].
Qed.

Lemma get_world (prop : string) (s : State) :
  socket_path s ∈ files s -> same_world (snd (get prop s)) (slept s).
Proof.
  intros Hex. pose proof (send_recv_world (get_payload prop) s Hex) as H.
  unfold get, bind. fold (get_payload prop).
  now destruct (send_recv (get_payload prop) s) as [[[]|e] s1].
Qed.

Lemma command_present_eq (cmd : list string) (s : State) :
  socket_path s ∈ files s ->
  command cmd s = (acknowledged (reply (peek s)), snd (command cmd s))
  /\ outbox (snd (command cmd s))
     = (outbox s ++ delivered (reply (peek s)) (command_payload cmd))%list.
Proof.
  intros Hex. destruct (command_present cmd s Hex) as (Hr & _ & Ho).
  split; [|exact Ho].
  destruct (command cmd s) as [r s1]. simpl in *. now rewrite Hr.
Qed.

Lemma get_outbox (prop : string) (s : State) :
  socket_path s ∈ files s ->
  outbox (snd (get prop s))
  = (outbox s ++ delivered (reply (peek s)) (get_payload prop))%list.
Proof.
  intros Hex. destruct (send_recv_present (get_payload prop) s Hex) as (_ & _ & Ho).
  unfold get, bind. fold (get_payload prop).
  now destruct (send_recv (get_payload prop) s) as [[[]|e] s1].
Qed.

(** ** show_text *)

Lemma show_text_present (text : string) (ms : Z) (s : State) :
  socket_path s ∈ files s ->
  fst (show_text text ms s) = notified (reply (peek s))
  /\ outbox (snd (show_text text ms s))
     = (outbox s ++ delivered (reply (peek s))
                      (command_payload ["show-text"; text; str ms]))%list
  /\ same_world (snd (show_text text ms s)) (slept s).
Proof.
  intros Hex.
  destruct (command_present_eq ["show-text"; text; str ms] s Hex) as (Hc & Ho).
  pose proof (command_world ["show-text"; text; str ms] s Hex) as Hw.
  unfold show_text, try_except. rewrite Hc.
  destruct (reply (peek s)) as [|[| |]|j]; simpl; auto.
Qed.

(** [show_text] swallows a [RuntimeError] and nothing else.  With the socket
    path missing it returns and changes nothing.  With the path there, a
    refused connection, an answer that is not UTF-8 and an answer that is not
    JSON raise out of it; an answer nested too deep for the decoder does not,
    its [RecursionError] being a [RuntimeError]; an answer that decodes means
    the command was delivered. *)
Theorem show_text_outcomes (text : string) (ms : Z) (s : State) :
  (socket_path s ∉ files s -> show_text text ms s = (Ok tt, s))
  /\ (socket_path s ∈ files s ->
      fst (show_text text ms s)
      = match reply (peek s) with
        | Refused => Raise ConnectionRefusedError
        | Garbage NotUTF8 => Raise UnicodeDecodeError
        | Garbage NotJSON => Raise JSONDecodeError
        | Garbage TooDeep => Ok tt
        | Decoded _ => Ok tt
        end
      /\ outbox (snd (show_text text ms s))
         = (outbox s ++ delivered (reply (peek s))
                          (command_payload ["show-text"; text; str ms]))%list
      /\ same_world (snd (show_text text ms s)) (slept s))
  /\ (forall e s', show_text text ms s = (Raise e, s') -> is_RuntimeError e = false).
Proof.
  split; [apply show_text_absent|].
  split; [intros Hex; now apply show_text_present|].
  intros e s'. unfold show_text, try_except.
  destruct (command ["show-text"; text; str ms] s) as [[[]|e0] s1]; [discriminate|].
  destruct (is_RuntimeError e0) eqn:He; [discriminate|].
  intros H. inversion H; subst. exact He.
Qed.

Lemma show_text_outcomes_witness :
  fst (show_text "hello" 1000 (set_env [tick [] Refused] playing_movie))
  = Raise ConnectionRefusedError.
Proof.
  apply (proj1 (proj2 (show_text_outcomes "hello" 1000
                         (set_env [tick [] Refused] playing_movie)))).
  apply present_by_decide. vm_compute. reflexivity.
Defined.

(** ** What pause, seek and volume send *)

(** The outcome of the closing [show_text] in a world [w]: nothing when the
    socket path is missing, else the fate of the exchange. *)
Definition shown_result (w : State) : Res unit :=
  if bool_decide (socket_path w ∈ files w) then notified (reply (peek w))
  else Ok tt.

(** What the closing [show_text] delivers in a world [w]. *)
Definition shown (text : string) (ms : Z) (w : State) : list json :=
  if bool_decide (socket_path w ∈ files w)
  then delivered (reply (peek w)) (command_payload ["show-text"; text; str ms])
  else [].

Lemma slept_path (s : State) : socket_path (slept s) = socket_path s.
Proof. apply (mv_path _ _ (slept_moved s)). Qed.

Lemma show_text_at (text : string) (ms : Z) (s w : State) :
  same_world s w ->
  fst (show_text text ms s) = shown_result w
  /\ outbox (snd (show_text text ms s)) = (outbox s ++ shown text ms w)%list.
Proof.
  intros Hw. pose proof Hw as (A & _ & C & _ & _).
  pose proof (same_world_peek _ _ Hw) as Hp.
  unfold shown_result, shown. rewrite <- A, <- C, <- Hp.
  destruct (decide (socket_path s ∈ files s)) as [Hex|Hno].
  - rewrite bool_decide_eq_true_2 by exact Hex.
    destruct (show_text_present text ms s Hex) as (Hr & Ho & _). now split.
  - rewrite bool_decide_eq_false_2 by exact Hno.
    rewrite (show_text_absent s text ms Hno). simpl. now rewrite app_nil_r.
Qed.

(** [seek(delta)], its first command answered: the seek command is delivered
    first, then the notification, whose text has the forward mark and a plus
    sign for a positive [delta] and the backward mark and a minus sign
    otherwise, zero included, followed by the magnitude.  The call returns or
    raises as the notification's exchange decides; a socket path that has
    gone by then is not an error. *)
Theorem seek_sends (delta : Z) (s : State) (j : json) :
  socket_path s ∈ files s -> reply (peek s) = Decoded j ->
  fst (seek delta s) = shown_result (slept s)
  /\ outbox (snd (seek delta s))
     = (outbox s ++ command_payload ["seek"; str delta; "relative"]
          :: shown (seek_text delta) 1000 (slept s))%list
  /\ ((0 < delta)%Z -> seek_text delta = FORWARD +:+ str delta +:+ " s")
  /\ ((delta <= 0)%Z -> seek_text delta = BACKWARD +:+ str (- delta) +:+ " s").
Proof.
  intros Hex Hr.
  destruct (command_present_eq ["seek"; str delta; "relative"] s Hex) as (Hc & Ho).
  pose proof (command_world ["seek"; str delta; "relative"] s Hex) as Hw.
  rewrite Hr in Hc, Ho. simpl in Hc, Ho.
  destruct (show_text_at (seek_text delta) 1000 _ _ Hw) as (Hres & Hout).
  unfold seek, bind. rewrite Hc. fold (seek_text delta).
  split; [exact Hres|]. split.
  - rewrite Hout, Ho, <- app_assoc. reflexivity.
  - unfold seek_text. split; intros Hd.
    + rewrite (proj2 (Z.ltb_lt 0 delta) Hd), Z.abs_eq by lia. reflexivity.
    + rewrite (proj2 (Z.ltb_ge 0 delta) Hd), Z.abs_neq by lia. reflexivity.
Qed.

Lemma seek_sends_witness :
  outbox (snd (seek 0 (set_env [tick [] (Decoded JNull); tick [] (Decoded JNull)]
                         playing_movie)))
  = [command_payload ["seek"; "0"; "relative"];
     command_payload ["show-text"; BACKWARD +:+ "0 s"; "1000"]].
Proof.
  destruct (seek_sends 0 (set_env [tick [] (Decoded JNull); tick [] (Decoded JNull)]
                            playing_movie) JNull) as (_ & Ho & _).
  - apply present_by_decide. vm_compute. reflexivity.
  - reflexivity.
  - rewrite Ho. vm_compute. reflexivity.
Defined.

(** [pause()], its first two exchanges answered: the toggle is delivered, then
    the read of [pause], then the notification with the paused text when the
    value read is true and the playing text when it is false or missing, for
    1200 ms. *)
Theorem pause_sends (s : State) (j : json) (kvs : list (string * json)) :
  socket_path s ∈ files s -> reply (peek s) = Decoded j ->
  socket_path s ∈ files (slept s) -> reply (peek (slept s)) = Decoded (JObj kvs) ->
  let text := if truthy (dict_get "data" kvs) then PAUSED else PLAYING in
  fst (pause s) = shown_result (slept (slept s))
  /\ outbox (snd (pause s))
     = (outbox s ++ command_payload ["cycle"; "pause"] :: get_payload "pause"
          :: shown text 1200 (slept (slept s)))%list.
Proof.
  intros Hex Hr Hex1 Hr1 text. subst text.
  destruct (command_present_eq ["cycle"; "pause"] s Hex) as (Hc & Ho).
  pose proof (command_world ["cycle"; "pause"] s Hex) as Hw.
  rewrite Hr in Hc, Ho. simpl in Hc, Ho.
  set (s1 := snd (command ["cycle"; "pause"] s)) in *.
  pose proof Hw as (A & _ & C & _ & _).
  assert (socket_path s1 ∈ files s1) as Hex1'
    by (rewrite A, C, slept_path; exact Hex1).
  pose proof (get_present "pause" s1 Hex1') as Hg.
  pose proof (get_outbox "pause" s1 Hex1') as Hgo.
  pose proof (get_world "pause" s1 Hex1') as Hgw.
  rewrite (same_world_peek _ _ Hw), Hr1 in Hg, Hgo. simpl in Hg, Hgo.
  assert (same_world (snd (get "pause" s1)) (slept (slept s))) as Hw2
    by (eapply same_world_trans; [exact Hgw | now apply slept_same_world]).
  destruct (show_text_at (if truthy (dict_get "data" kvs) then PAUSED else PLAYING)
              1200 _ _ Hw2) as (Hres & Hout).
  unfold pause, bind. rewrite Hc. fold s1.
  destruct (get "pause" s1) as [r s2]. simpl in *. subst r.
  split; [exact Hres|].
  rewrite Hout, Hgo, Ho, <- !app_assoc. reflexivity.
Qed.

Lemma pause_sends_witness :
  outbox (snd (pause (set_env [tick [] (Decoded JNull);
                               tick [] (Decoded (JObj [("data", JBool true)]));
                               tick [] (Decoded JNull)] playing_movie)))
  = [command_payload ["cycle"; "pause"]; get_payload "pause";
     command_payload ["show-text"; PAUSED; "1200"]].
Proof.
  destruct (pause_sends (set_env [tick [] (Decoded JNull);
                                  tick [] (Decoded (JObj [("data", JBool true)]));
                                  tick [] (Decoded JNull)] playing_movie)
              JNull [("data", JBool true)]) as (_ & Ho).
  - apply present_by_decide. vm_compute. reflexivity.
  - reflexivity.
  - apply present_by_decide. vm_compute. reflexivity.
  - reflexivity.
  - rewrite Ho. vm_compute. reflexivity.
Defined.

(** [volume(delta)], its first two exchanges answered: the change is delivered,
    then the read of [volume].  When the value read converts to an integer
    (a missing value counting as zero) the notification shows it as a
    percentage; when it does not, [volume] raises the conversion's error after
    the change has been delivered and shows nothing. *)
Theorem volume_sends (int_of_str : string -> option Z) (delta : Z) (s : State)
    (j : json) (kvs : list (string * json)) :
  socket_path s ∈ files s -> reply (peek s) = Decoded j ->
  socket_path s ∈ files (slept s) -> reply (peek (slept s)) = Decoded (JObj kvs) ->
  match py_int int_of_str (py_or (dict_get "data" kvs) (JInt 0)) with
  | Ok vol =>
      fst (volume int_of_str delta s) = shown_result (slept (slept s))
      /\ outbox (snd (volume int_of_str delta s))
         = (outbox s ++ command_payload ["add"; "volume"; str delta]
              :: get_payload "volume"
              :: shown (SPEAKER +:+ str vol +:+ "%") 1000 (slept (slept s)))%list
  | Raise e =>
      fst (volume int_of_str delta s) = Raise e
      /\ outbox (snd (volume int_of_str delta s))
         = (outbox s ++ [command_payload ["add"; "volume"; str delta];
                         get_payload "volume"])%list
  end.
Proof.
  intros Hex Hr Hex1 Hr1.
  destruct (command_present_eq ["add"; "volume"; str delta] s Hex) as (Hc & Ho).
  pose proof (command_world ["add"; "volume"; str delta] s Hex) as Hw.
  rewrite Hr in Hc, Ho. simpl in Hc, Ho.
  set (s1 := snd (command ["add"; "volume"; str delta] s)) in *.
  pose proof Hw as (A & _ & C & _ & _).
  assert (socket_path s1 ∈ files s1) as Hex1'
    by (rewrite A, C, slept_path; exact Hex1).
  pose proof (get_present "volume" s1 Hex1') as Hg.
  pose proof (get_outbox "volume" s1 Hex1') as Hgo.
  pose proof (get_world "volume" s1 Hex1') as Hgw.
  rewrite (same_world_peek _ _ Hw), Hr1 in Hg, Hgo. simpl in Hg, Hgo.
  assert (same_world (snd (get "volume" s1)) (slept (slept s))) as Hw2
    by (eapply same_world_trans; [exact Hgw | now apply slept_same_world]).
  unfold volume, bind. rewrite Hc. fold s1.
  destruct (get "volume" s1) as [r s2]. simpl in *. subst r.
  destruct (py_int int_of_str (py_or (dict_get "data" kvs) (JInt 0))) as [vol|e]; simpl.
  - destruct (show_text_at (SPEAKER +:+ str vol +:+ "%") 1000 _ _ Hw2) as (Hres & Hout).
    split; [exact Hres|]. rewrite Hout, Hgo, Ho, <- !app_assoc. reflexivity.
  - split; [reflexivity|]. rewrite Hgo, Ho, <- !app_assoc. reflexivity.
Qed.

Lemma volume_sends_witness :
  fst (volume plain_int_of_str 5
         (set_env [tick [] (Decoded JNull);
                   tick [] (Decoded (JObj [("data", JArr [JInt 1])]))] playing_movie))
  = Raise TypeError
  /\ outbox (snd (volume plain_int_of_str 5
         (set_env [tick [] (Decoded JNull);
                   tick [] (Decoded (JObj [("data", JArr [JInt 1])]))] playing_movie)))
     = [command_payload ["add"; "volume"; "5"]; get_payload "volume"].
Proof.
  pose proof (volume_sends plain_int_of_str 5
                (set_env [tick [] (Decoded JNull);
                          tick [] (Decoded (JObj [("data", JArr [JInt 1])]))] playing_movie)
                JNull [("data", JArr [JInt 1])]) as H.
  simpl py_int in H. apply H.
  - apply present_by_decide. vm_compute. reflexivity.
  - reflexivity.
  - apply present_by_decide. vm_compute. reflexivity.
  - reflexivity.
Defined.

(** ** Operations that only let the world pass *)

(** Every run of [m] leaves the controller's attributes as they were and the
    world as at most [n] ticks made it: nothing is launched, ended or removed
    by the controller itself. *)
Definition ticks_only {A} (n : nat) (m : M A) : Prop :=
  forall s, exists k, (k <= n)%nat /\ same_world (snd (m s)) (sleeps k s).

Lemma sleeps_same_world (k : nat) (s s' : State) :
  same_world s s' -> same_world (sleeps k s) (sleeps k s').
Proof.
  revert s s'. induction k as [|k IH]; intros s s' H; [exact H|].
  simpl. apply IH. now apply slept_same_world.
Qed.

Lemma sleeps_add (j k : nat) (s : State) : sleeps (j + k) s = sleeps k (sleeps j s).
Proof.
  revert s. induction j as [|j IH]; intros s; [reflexivity|]. simpl. apply IH.
Qed.

Lemma ticks_only_ret {A} (a : A) : ticks_only 0 (ret a).
Proof. intros s. exists O. split; [lia | apply same_world_refl]. Qed.

Lemma ticks_only_raise {A} (e : exn) : ticks_only 0 (@raise A e).
Proof. intros s. exists O. split; [lia | apply same_world_refl]. Qed.

Lemma ticks_only_lift {A} (r : Res A) : ticks_only 0 (lift r).
Proof. intros s. exists O. split; [lia | apply same_world_refl]. Qed.

Lemma ticks_only_gets {A} (f : State -> A) : ticks_only 0 (gets f).
Proof. intros s. exists O. split; [lia | apply same_world_refl]. Qed.

Lemma ticks_only_bind {A B} (n1 n2 : nat) (m : M A) (k : A -> M B) :
  ticks_only n1 m -> (forall a, ticks_only n2 (k a)) -> ticks_only (n1 + n2) (bind m k).
Proof.
  intros Hm Hk s. unfold bind. destruct (Hm s) as (k1 & Hk1 & Hw1).
  destruct (m s) as [[a|e] s1]; simpl in *.
  - destruct (Hk a s1) as (k2 & Hk2 & Hw2). exists (k1 + k2)%nat. split; [lia|].
    rewrite sleeps_add. eapply same_world_trans; [exact Hw2|].
    now apply sleeps_same_world.
  - exists k1. split; [lia | exact Hw1].
Qed.

Lemma ticks_only_try {A} (n1 n2 : nat) (m : M A) (c : exn -> bool) (h : M A) :
  ticks_only n1 m -> ticks_only n2 h -> ticks_only (n1 + n2) (try_except m c h).
Proof.
  intros Hm Hh s. unfold try_except. destruct (Hm s) as (k1 & Hk1 & Hw1).
  destruct (m s) as [[a|e] s1]; simpl in *; [exists k1; split; [lia | exact Hw1]|].
  destruct (c e); [|exists k1; split; [lia | exact Hw1]].
  destruct (Hh s1) as (k2 & Hk2 & Hw2). exists (k1 + k2)%nat. split; [lia|].
  rewrite sleeps_add. eapply same_world_trans; [exact Hw2|].
  now apply sleeps_same_world.
Qed.

Lemma ticks_only_le {A} (n n' : nat) (m : M A) :
  (n <= n')%nat -> ticks_only n m -> ticks_only n' m.
Proof. intros Hle Hm s. destruct (Hm s) as (k & Hk & Hw). exists k. split; [lia | exact Hw]. Qed.

Lemma ticks_only_send_recv (payload : json) : ticks_only 1 (send_recv payload).
Proof.
  intros s. destruct (decide (socket_path s ∈ files s)) as [Hex|Hno].
  - exists 1%nat. split; [lia | now apply send_recv_world].
  - exists O. split; [lia|]. rewrite send_recv_absent by exact Hno. apply same_world_refl.
Qed.

Lemma ticks_only_command (cmd : list string) : ticks_only 1 (command cmd).
Proof.
  apply (ticks_only_bind 1 0); [apply ticks_only_send_recv|].
  intros _. apply ticks_only_ret.
Qed.

Lemma ticks_only_get (prop : string) : ticks_only 1 (get prop).
Proof.
  apply (ticks_only_bind 1 0); [apply ticks_only_send_recv|].
  intros []; first [apply ticks_only_ret | apply ticks_only_raise].
Qed.

Lemma ticks_only_show_text (text : string) (ms : Z) : ticks_only 1 (show_text text ms).
Proof.
  apply (ticks_only_try 1 0); [apply ticks_only_command | apply ticks_only_ret].
Qed.

Lemma ticks_only_status_snapshot (int_of_str : string -> option Z) :
  ticks_only 3 (status_snapshot int_of_str).
Proof.
  apply (ticks_only_bind 1 2); [apply ticks_only_get|]. intros path.
  apply (ticks_only_bind 0 2); [apply ticks_only_lift|]. intros file.
  apply (ticks_only_bind 1 1); [apply ticks_only_get|]. intros paused.
  apply (ticks_only_bind 1 0); [apply ticks_only_get|]. intros v.
  apply (ticks_only_bind 0 0); [apply ticks_only_lift|]. intros vol.
  apply ticks_only_ret.
Qed.

(** [pause], [seek], [volume] and [status] never touch the session: whether
    they return or raise, the tracked handle and the socket path are as before
    and files and processes are as the world's ticks left them, at most one
    tick for each exchange (three, two, three and three).  None of them
    launches, ends or forgets a process or removes a file. *)
Theorem controls_only_let_ticks_pass (int_of_str : string -> option Z) (delta : Z) :
  ticks_only 3 pause
  /\ ticks_only 2 (seek delta)
  /\ ticks_only 3 (volume int_of_str delta)
  /\ ticks_only 3 (status int_of_str).
Proof.
  split; [|split; [|split]].
  - apply (ticks_only_bind 1 2); [apply ticks_only_command|]. intros _.
    apply (ticks_only_bind 1 1); [apply ticks_only_get|]. intros v.
    apply ticks_only_show_text.
  - apply (ticks_only_bind 1 1); [apply ticks_only_command|]. intros _.
    apply ticks_only_show_text.
  - apply (ticks_only_bind 1 2); [apply ticks_only_command|]. intros _.
    apply (ticks_only_bind 1 1); [apply ticks_only_get|]. intros v.
    apply (ticks_only_bind 0 1); [apply ticks_only_lift|]. intros vol.
    apply ticks_only_show_text.
  - apply (ticks_only_bind 0 3); [apply ticks_only_gets|]. intros [h|];
      [|apply (ticks_only_le 0); [lia | apply ticks_only_ret]].
    apply (ticks_only_bind 0 3); [apply ticks_only_gets|]. intros [rc|];
      [apply ticks_only_status_snapshot
      |apply (ticks_only_le 0); [lia | apply ticks_only_ret]].
Qed.

(** ** What status sends *)

Lemma get_sends (prop : string) (s : State) :
  match fst (get prop s) with
  | Ok _ => outbox (snd (get prop s)) = (outbox s ++ [get_payload prop])%list
  | Raise _ =>
      outbox (snd (get prop s)) = outbox s
      \/ outbox (snd (get prop s)) = (outbox s ++ [get_payload prop])%list
  end.
Proof.
  destruct (decide (socket_path s ∈ files s)) as [Hex|Hno].
  - rewrite (get_present prop s Hex), (get_outbox prop s Hex).
    destruct (reply (peek s)) as [|d|j]; simpl.
    + left. apply app_nil_r.
    + now right.
    + destruct (data_of j); [reflexivity | now right].
  - rewrite (get_absent s prop Hno). now left.
Qed.

(** [status] talks to the player only to read properties: what it delivers is
    a leading part of the reads of [path], [pause] and [volume], in that
    order, all three when it returns a snapshot and none when it answers
    [{"running": False}]. *)
Theorem status_only_reads (int_of_str : string -> option Z) (s : State) :
  exists l,
    outbox (snd (status int_of_str s)) = (outbox s ++ l)%list
    /\ l `prefix_of` [get_payload "path"; get_payload "pause"; get_payload "volume"]
    /\ (forall d, fst (status int_of_str s) = Ok d ->
          (d = [("running", JBool false)] /\ l = [])
          \/ (dict_get "running" d = JBool true
              /\ l = [get_payload "path"; get_payload "pause"; get_payload "volume"])).
Proof.
  destruct (status_two_ways int_of_str s) as [-> | ->].
  { exists []. simpl. rewrite app_nil_r. split; [reflexivity|].
    split; [apply prefix_nil|]. intros d Hd. left. now inversion Hd. }
  unfold status_snapshot, bind.
  pose proof (get_sends "path" s) as H1.
  destruct (get "path" s) as [[v1|e1] s1]; simpl in H1.
  2:{ cbn [fst snd]. destruct H1 as [-> | ->]; simpl.
      - exists []. rewrite app_nil_r. split; [reflexivity|].
        split; [apply prefix_nil | discriminate].
      - exists [get_payload "path"]. split; [reflexivity|].
        split; [now eexists | discriminate]. }
  unfold lift at 1.
  destruct (os_path_basename (py_or v1 (JStr ""))) as [file|e]; simpl.
  2:{ exists [get_payload "path"]. split; [exact H1|].
      split; [now eexists | discriminate]. }
  pose proof (get_sends "pause" s1) as H2.
  destruct (get "pause" s1) as [[v2|e2] s2]; simpl in H2.
  2:{ cbn [fst snd]. destruct H2 as [-> | ->]; rewrite H1; simpl.
      - exists [get_payload "path"]. split; [reflexivity|].
        split; [now eexists | discriminate].
      - exists [get_payload "path"; get_payload "pause"].
        rewrite <- app_assoc. split; [reflexivity|].
        split; [now eexists | discriminate]. }
  pose proof (get_sends "volume" s2) as H3.
  destruct (get "volume" s2) as [[v3|e3] s3]; simpl in H3.
  2:{ cbn [fst snd]. destruct H3 as [-> | ->]; rewrite H2, H1; simpl.
      - exists [get_payload "path"; get_payload "pause"].
        rewrite <- app_assoc. split; [reflexivity|].
        split; [now eexists | discriminate].
      - exists [get_payload "path"; get_payload "pause"; get_payload "volume"].
        rewrite <- !app_assoc. split; [reflexivity|].
        split; [reflexivity | discriminate]. }
  exists [get_payload "path"; get_payload "pause"; get_payload "volume"].
  unfold lift.
  destruct (py_int int_of_str (py_or v3 (JInt 0))) as [vol|e]; simpl;
    rewrite H3, H2, H1, <- !app_assoc; (split; [reflexivity|]);
    (split; [reflexivity|]); [|discriminate].
  intros d Hd. right. inversion Hd. now split.
Qed.

(** ** When start succeeds *)

Lemma sleeps_path (k : nat) (s : State) : socket_path (sleeps k s) = socket_path s.
Proof.
  revert s. induction k as [|k IH]; intros s; [reflexivity|].
  simpl. now rewrite IH, slept_path.
Qed.

(** The polling loop stops at the first check that finds the path, and gives
    up after [n] checks that do not. *)
Lemma wait_socket_spec (n : nat) (s : State) :
  (exists k, (k < n)%nat
     /\ socket_path s ∈ files (sleeps k s)
     /\ (forall j, (j < k)%nat -> socket_path s ∉ files (sleeps j s))
     /\ wait_socket n s = (Ok true, sleeps k s))
  \/ ((forall k, (k < n)%nat -> socket_path s ∉ files (sleeps k s))
      /\ wait_socket n s = (Ok false, sleeps n s)).
Proof.
  revert s. induction n as [|n IH]; intros s.
  { right. split; [intros k Hk; lia | reflexivity]. }
  rewrite wait_socket_S.
  destruct (decide (socket_path s ∈ files s)) as [Hex|Hno].
  - rewrite bool_decide_eq_true_2 by exact Hex. left. exists O.
    split; [lia|]. split; [exact Hex|]. split; [intros j Hj; lia | reflexivity].
  - rewrite bool_decide_eq_false_2 by exact Hno.
    destruct (IH (slept s)) as [(k & Hk & Hin & Hbefore & Hw) | (Hnone & Hw)].
    + left. exists (S k). rewrite slept_path in Hin. split; [lia|].
      split; [exact Hin|]. split; [|exact Hw].
      intros [|j] Hj; [exact Hno|]. simpl. rewrite <- (slept_path s).
      apply Hbefore. lia.
    + right. split; [|exact Hw].
      intros [|k] Hk; [exact Hno|]. simpl. rewrite <- (slept_path s).
      apply Hnone. lia.
Qed.

Lemma stop_ok_cleared (s : State) (u : unit) (s0 : State) :
  stop s = (Ok u, s0) -> proc s0 = None /\ socket_path s0 ∉ files s0.
Proof.
  intros H. split; [|apply (proj1 (not_listed _ _)); now apply (stop_ok_clean s u s0)].
  assert (forall s1, stop_clear s1 = (Ok u, s0) -> proc s0 = None) as Hc.
  { intros s1 H1. destruct (stop_clear_keeps s1) as (K & _). now rewrite H1 in K. }
  revert H. destruct (running s) eqn:Hr; [|rewrite stop_idle by exact Hr; apply Hc].
  destruct (running_true_tracked s Hr) as [h Hh]. rewrite (stop_running s h Hh Hr).
  destruct (command ["quit"] s) as [[[]|e] s1]; [apply Hc | discriminate].
Qed.

(** Once its opening [stop] has returned, [start] launches and polls, and
    ends as the polling ends. *)
Lemma start_polls (media : string) (s : State) (u : unit) (s0 : State) :
  stop s = (Ok u, s0) ->
  exists b,
    wait_socket 50 (launched media s0) = (Ok b, snd (start media s))
    /\ fst (start media s) = (if b then Ok tt else Raise LaunchTimeout).
Proof.
  intros Hstop. rewrite start_cases, Hstop.
  destruct (wait_socket_returns 50 (launched media s0)) as (b & s' & Hw).
  rewrite Hw. exists b. now destruct b.
Qed.

Lemma launched_no_socket (media : string) (s : State) :
  socket_path s ∉ files (launched media s).
Proof.
  unfold launched. cbn [files set_proc note_live set_procs].
  apply (proj1 (not_listed _ _)), unlinked_not_listed.
Qed.

(** The outcome of polling. *)
Lemma poll_outcome (n : nat) (s : State) (b : bool) (s' : State) :
  wait_socket n s = (Ok b, s') ->
  (b = true <-> exists k, (k < n)%nat /\ socket_path s ∈ files (sleeps k s))
  /\ (b = true ->
      exists k, (k < n)%nat
        /\ s' = sleeps k s
        /\ socket_path s ∈ files s'
        /\ (forall j, (j < k)%nat -> socket_path s ∉ files (sleeps j s))
        /\ env s' = drop k (env s))
  /\ (b = false -> s' = sleeps n s).
Proof.
  intros Hw.
  destruct (wait_socket_spec n s) as [(k & Hk & Hin & Hbefore & Heq) | (Hnone & Heq)];
    rewrite Hw in Heq; inversion Heq as [[Hb Hs']].
  - split; [split; [intros _; now exists k | reflexivity]|].
    split; [|discriminate]. intros _. exists k.
    split; [lia|]. split; [reflexivity|]. split; [exact Hin|].
    split; [exact Hbefore | apply sleeps_env].
  - split; [|split; [discriminate | reflexivity]].
    split; [discriminate|]. intros (k & Hk & Hin). exfalso. now apply (Hnone k Hk).
Qed.

(** The polling loop of [start].  Once the opening [stop] has returned and
    the player has been launched, the outcome of [start] is that of its
    polling: it returns exactly when one of the 50 checks finds the socket
    path, at the first check that does, after as many sleeps as checks that
    did not, with the handle of the launched process tracked; it raises
    LaunchTimeout after 50 sleeps otherwise. *)
Theorem start_returns_when_socket_seen (media : string) (s s0 s1 : State) :
  start_head s = (Ok tt, s0) ->
  start_launch media s0 = (Ok tt, s1) ->
  start media s = start_poll s1
  /\ (fst (start media s) = Ok tt \/ fst (start media s) = Raise LaunchTimeout)
  /\ (fst (start media s) = Ok tt <->
      exists k, (k < 50)%nat /\ socket_path s1 ∈ files (sleeps k s1))
  /\ (fst (start media s) = Ok tt ->
      exists k, (k < 50)%nat
        /\ snd (start media s) = sleeps k s1
        /\ socket_path s1 ∈ files (snd (start media s))
        /\ (forall j, (j < k)%nat -> socket_path s1 ∉ files (sleeps j s1))
        /\ proc (snd (start media s)) = proc s1
        /\ env (snd (start media s)) = drop k (env s1))
  /\ (fst (start media s) = Raise LaunchTimeout ->
      snd (start media s) = sleeps 50 s1
      /\ proc (snd (start media s)) = proc s1).
Proof.
  intros Hhead Hlaunch.
  assert (start media s = start_poll s1) as Heq
    by (rewrite start_split; unfold bind at 1 2; now rewrite Hhead, Hlaunch).
  split; [exact Heq|]. rewrite Heq, start_poll_eq. clear Heq Hhead Hlaunch.
  destruct (wait_socket_returns 50 s1) as (b & s' & Hw).
  pose proof (calm_wait_socket 50 s1) as Hm.
  destruct (poll_outcome 50 s1 b s' Hw) as (Hiff & Hdet & Hout).
  rewrite Hw in *. cbn [snd] in Hm.
  destruct b; cbn [fst snd].
  - split; [now left|]. split; [split; [intros _; now apply Hiff | reflexivity]|].
    split; [|discriminate]. intros _.
    destruct (Hdet eq_refl) as (k & Hk & Hs' & Hin & Hbefore & Henv).
    exists k. split; [exact Hk|]. split; [exact Hs'|]. split; [exact Hin|].
    split; [exact Hbefore|]. split; [apply (mv_proc _ _ Hm) | exact Henv].
  - split; [now right|].
    split; [split; [discriminate | intros Hk; now apply Hiff in Hk]|].
    split; [discriminate|]. intros _. split; [|apply (mv_proc _ _ Hm)].
    now apply Hout.
Qed.

Lemma start_returns_when_socket_seen_witness :
  fst (start "/media/movie.mkv" (MPVController ∅ movie_script)) = Ok tt
  /\ exists k, (k < 50)%nat
       /\ socket_path (launched "/media/movie.mkv" (MPVController ∅ movie_script))
          ∈ files (sleeps k (launched "/media/movie.mkv" (MPVController ∅ movie_script))).
Proof.
  assert (start_head (MPVController ∅ movie_script)
          = (Ok tt, MPVController ∅ movie_script))
    as Hhead by (vm_compute; reflexivity).
  assert (start_launch "/media/movie.mkv" (MPVController ∅ movie_script)
          = (Ok tt, launched "/media/movie.mkv" (MPVController ∅ movie_script)))
    as Hlaunch by (vm_compute; reflexivity).
  destruct (start_returns_when_socket_seen "/media/movie.mkv" _ _ _ Hhead Hlaunch)
    as (_ & _ & Hiff & _).
  assert (exists k, (k < 50)%nat
            /\ socket_path (launched "/media/movie.mkv" (MPVController ∅ movie_script))
               ∈ files (sleeps k (launched "/media/movie.mkv"
                                    (MPVController ∅ movie_script)))) as Hk.
  { exists 1%nat. split; [lia|]. apply present_by_decide. vm_compute. reflexivity. }
  split; [apply Hiff; exact Hk | exact Hk].
Defined.

(** After a [stop()] that returned, whatever the world does to files and
    processes meanwhile, the next [start] has nothing to quit: before its
    launch it sends nothing and lets no tick pass, and only removes what is at
    the socket path.  If that removal fails other than for a missing path,
    [start] raises the removal's error and launches nothing.  Otherwise, the launch
    succeeding, exactly one process is launched and tracked, and [start] ends
    by returning or by LaunchTimeout: no channel error is possible. *)
Theorem start_after_stop_launches (media : string) (s s0 : State) (l : list Act) :
  stop s = (Ok tt, s0) ->
  running (apply_acts l s0) = false
  /\ start_head (apply_acts l s0)
     = match blocked (apply_acts l s0) with
       | None => (Ok tt, cleared (apply_acts l s0))
       | Some why => (Raise (remove_error why), set_proc None (apply_acts l s0))
       end
  /\ (forall why, blocked (apply_acts l s0) = Some why ->
        start media (apply_acts l s0)
        = (Raise (remove_error why), set_proc None (apply_acts l s0)))
  /\ (blocked (apply_acts l s0) = None ->
      forall s2, start_launch media (cleared (apply_acts l s0)) = (Ok tt, s2) ->
        start media (apply_acts l s0) = start_poll s2
        /\ (fst (start media (apply_acts l s0)) = Ok tt
            \/ fst (start media (apply_acts l s0)) = Raise LaunchTimeout)
        /\ length (procs (snd (start media (apply_acts l s0)))) = S (length (procs s0))
        /\ proc (snd (start media (apply_acts l s0))) = Some (length (procs s0))).
Proof.
  intros Hstop. destruct (stop_ok_cleared s tt s0 Hstop) as (Hn & _).
  pose proof (apply_acts_moved l s0) as Hm0.
  set (s1 := apply_acts l s0) in *.
  assert (running s1 = false) as Hr
    by (unfold running; now rewrite (mv_proc _ _ Hm0), Hn).
  assert (start_head s1 = match blocked s1 with
                          | None => (Ok tt, cleared s1)
                          | Some why => (Raise (remove_error why), set_proc None s1)
                          end) as Hhead
    by (rewrite start_head_eq, (stop_idle s1 Hr); apply stop_clear_eq).
  split; [exact Hr|]. split; [exact Hhead|]. split.
  - intros why Hb. rewrite Hb in Hhead.
    rewrite start_split. unfold bind at 1. now rewrite Hhead.
  - intros Hb s2 Hlaunch. rewrite Hb in Hhead.
    assert (start media s1 = start_poll s2) as Heq
      by (rewrite start_split; unfold bind at 1 2; now rewrite Hhead, Hlaunch).
    split; [exact Heq|]. rewrite Heq, start_poll_eq.
    rewrite start_launch_eq in Hlaunch by apply cleared_vacant.
    inversion Hlaunch; subst s2.
    destruct (wait_socket_returns 50 (launched media (cleared s1))) as (b & s' & Hw).
    pose proof (calm_wait_socket 50 (launched media (cleared s1))) as Hm.
    rewrite Hw in *. cbn [snd] in Hm.
    assert (length (procs s1) = length (procs s0)) as Hlen
      by (symmetry; apply (Forall2_length _ _ _ (mv_procs _ _ Hm0))).
    assert (length (procs s') = S (length (procs s0)) /\ proc s' = Some (length (procs s0)))
      as [Hl Hp].
    { split.
      - rewrite <- (Forall2_length _ _ _ (mv_procs _ _ Hm)).
        unfold launched. cbn [procs set_proc note_live set_procs cleared unlinked set_files set_dangling].
        rewrite length_app, Hlen. simpl. lia.
      - rewrite (mv_proc _ _ Hm). unfold launched.
        cbn [proc procs set_proc note_live set_procs cleared unlinked set_files set_dangling].
        now rewrite Hlen. }
    destruct b; cbn [fst snd]; auto.
Qed.

Lemma start_after_stop_launches_witness :
  running (apply_acts [Touch MPV_SOCKET] (snd (stop playing_movie))) = false
  /\ start_head (apply_acts [Touch MPV_SOCKET] (snd (stop playing_movie)))
     = (Ok tt, cleared (apply_acts [Touch MPV_SOCKET] (snd (stop playing_movie)))).
Proof.
  assert (stop playing_movie = (Ok tt, snd (stop playing_movie))) as Hstop
    by (vm_compute; reflexivity).
  destruct (start_after_stop_launches "/media/b.mkv" playing_movie _
              [Touch MPV_SOCKET] Hstop) as (Hr & Hhead & _).
  split; [exact Hr|]. rewrite Hhead. vm_compute. reflexivity.
Defined.

(** ** stop is bounded *)

Lemma tl_drop {A} (l : list A) : tl l = drop 1 l.
Proof. now destruct l. Qed.

(** [stop()] never blocks for more than two ticks of the world (the exchange
    of [quit] and one bounded wait), never launches a process, delivers at
    most the [quit] command, and whenever it returns it leaves no handle, no
    socket file and no running session. *)
Theorem stop_is_bounded (s : State) :
  (exists k, (k <= 2)%nat /\ env (snd (stop s)) = drop k (env s))
  /\ Forall2 ended (procs s) (procs (snd (stop s)))
  /\ socket_path (snd (stop s)) = socket_path s
  /\ (outbox (snd (stop s)) = outbox s
      \/ outbox (snd (stop s)) = (outbox s ++ [quit_payload])%list)
  /\ (forall u, fst (stop s) = Ok u ->
        proc (snd (stop s)) = None
        /\ (socket_path s ∉ files (snd (stop s)))
        /\ running (snd (stop s)) = false).
Proof.
  assert (forall u, fst (stop s) = Ok u ->
            proc (snd (stop s)) = None
            /\ (socket_path s ∉ files (snd (stop s)))
            /\ running (snd (stop s)) = false) as Hok.
  { intros u Hu. pose proof (stop_keeps_path s) as Hp.
    destruct (stop s) as [r s'] eqn:Hs. cbn [fst snd] in *. subst r.
    destruct (stop_ok_cleared s u s' Hs) as [Hn Habs].
    split; [exact Hn|]. split; [now rewrite <- Hp|]. unfold running. now rewrite Hn. }
  assert ((exists k, (k <= 2)%nat /\ env (snd (stop s)) = drop k (env s))
          /\ Forall2 ended (procs s) (procs (snd (stop s)))
          /\ (outbox (snd (stop s)) = outbox s
              \/ outbox (snd (stop s)) = (outbox s ++ [quit_payload])%list))
    as (H1 & H2 & H3).
  2:{ split; [exact H1|]. split; [exact H2|]. split; [apply stop_keeps_path|].
      split; [exact H3 | exact Hok]. }
  clear Hok. destruct (running s) eqn:Hr.
  2:{ rewrite (stop_idle s Hr).
      destruct (stop_clear_keeps s) as (_ & K2 & K3 & K4 & _). rewrite K2, K3, K4.
      split; [exists O; split; [lia | reflexivity]|].
      split; [apply ended_refl | now left]. }
  destruct (running_true_tracked s Hr) as [h Hh].
  rewrite (stop_running s h Hh Hr).
  pose proof (calm_command ["quit"] s) as Hm.
  destruct (decide (socket_path s ∈ files s)) as [Hex|Hno].
  2:{ rewrite (command_absent s ["quit"] Hno). cbn [fst snd].
      split; [exists O; split; [lia | reflexivity]|].
      split; [apply ended_refl | now left]. }
  destruct (command_present ["quit"] s Hex) as (Hres & He & Ho).
  fold quit_payload in Ho. change (command_payload ["quit"]) with quit_payload in Ho.
  destruct (command ["quit"] s) as [[[]|e] s1]; cbn [fst snd] in *.
  - destruct (wait_or_kill_spec h s1) as (s2 & -> & Hm2 & Hdead & He2 & Ho2).
    cbn [fst snd].
    destruct (stop_clear_keeps s2) as (_ & K2 & K3 & K4 & _). rewrite K2, K3, K4.
    assert (moved s s2) as Hm12 by (eapply moved_trans; eauto).
    split. { exists 2%nat. split; [lia|]. rewrite He2, He, !tl_drop.
             now rewrite drop_drop. }
    split; [apply (mv_procs _ _ Hm12)|].
    right. rewrite Ho2, Ho.
    destruct (reply (peek s)); try discriminate. reflexivity.
  - split. { exists 1%nat. split; [lia|]. now rewrite He, tl_drop. }
    split; [apply (mv_procs _ _ Hm)|].
    rewrite Ho. destruct (reply (peek s)); simpl; auto.
    left. apply app_nil_r.
Qed.

(** * The control API of [src/app.py] *)

(** The handlers registered by [create_app], each a method call on the one
    controller it creates.  A handler gets what it reads from the request: the
    decoded JSON body for [play], the [delta] query parameter, when given, for
    [seek] and [volume].  It returns a response or raises; what Flask does
    with an exception is not part of the handler.  The [print] of [play] is
    left out. *)

(** ** Paths *)

Definition SLASH : Ascii.ascii := Ascii.ascii_of_nat 47.

(** [rel.split("/")] *)
Fixpoint split_slash_from (cur s : string) : list string :=
  match s with
  | EmptyString => [cur]
  | String c rest =>
      if Ascii.eqb c SLASH then cur :: split_slash_from "" rest
      else split_slash_from (cur +:+ String c "") rest
  end.
Definition split_slash (s : string) : list string := split_slash_from "" s.

(** [posixpath.splitroot]: the root ([/], or [//] for exactly two leading
    slashes) and what follows it. *)
Definition splitroot (p : string) : string * string :=
  match p with
  | String c1 r1 =>
      if Ascii.eqb c1 SLASH then
        match r1 with
        | String c2 r2 =>
            if Ascii.eqb c2 SLASH then
              match r2 with
              | String c3 _ => if Ascii.eqb c3 SLASH then ("/", r1) else ("//", r2)
              | EmptyString => ("//", r2)
              end
            else ("/", r1)
        | EmptyString => ("/", r1)
        end
      else ("", p)
  | EmptyString => ("", p)
  end.

(** A component that [pathlib] keeps: not empty and not a lone dot. *)
Definition kept (x : string) : bool :=
  negb (String.eqb x "") && negb (String.eqb x ".").

(** [str(Path(raw))]: the root followed by the kept components joined by
    slashes; [..] is a component like any other. *)
Definition path_str (raw : string) : string :=
  let '(root, rel) := splitroot raw in
  let text := root +:+ String.concat "/" (List.filter kept (split_slash rel)) in
  if String.eqb text "" then "." else text.

(** [posixpath.join(a, b)] for a directory [a] without trailing slash. *)
Definition posix_join (a b : string) : string :=
  if String.prefix "/" b then b else a +:+ "/" +:+ b.

Definition MEDIA_DIR : string := "/media".

(** [str(MEDIA_DIR / file)] *)
Definition media_path (file : string) : string :=
  path_str (posix_join MEDIA_DIR file).

(** ** Directory listing *)

Fixpoint has_slash (s : string) : bool :=
  match s with
  | EmptyString => false
  | String c rest => Ascii.eqb c SLASH || has_slash rest
  end.

(** The name of a directory entry: a component other than [.] and [..]. *)
Definition is_name (n : string) : bool :=
  kept n && negb (String.eqb n "..") && negb (has_slash n).

Fixpoint strip_prefix (pre s : string) : option string :=
  match pre with
  | EmptyString => Some s
  | String c pre' =>
      match s with
      | String d s' => if Ascii.eqb c d then strip_prefix pre' s' else None
      | EmptyString => None
      end
  end.

(** The entry of [MEDIA_DIR] that the path [p] names, if it names one. *)
Definition entry_name (p : string) : option string :=
  match strip_prefix (MEDIA_DIR +:+ "/") p with
  | Some n => if is_name n then Some n else None
  | None => None
  end.

(** [s.endswith(suffix)], the test the pattern [*.mkv] makes. *)
Fixpoint ends_with (suffix s : string) : bool :=
  String.eqb s suffix
  || match s with
     | EmptyString => false
     | String _ rest => ends_with suffix rest
     end.

(** The order of [str]. *)
Definition str_le (a b : string) : Prop := String.leb a b = true.

#[local] Instance str_le_dec (a b : string) : Decision (str_le a b).
Proof. unfold str_le. apply _. Defined.

(** [[f.name for f in MEDIA_DIR.glob("*.mkv")]]: the entries of the media
    directory whose name ends in [.mkv].  The listing shows every entry, a
    link to nothing like the others. *)
Definition glob_mkv (s : State) : list string :=
  List.filter (ends_with ".mkv") (omap entry_name (elements (listed s))).

(** ** Handlers *)

Inductive Response := Resp (body : option json) (code : Z).

Definition no_content : Response := Resp None 204.
Definition not_found : Response :=
  Resp (Some (JObj [("error", JStr "file not found")])) 404.


(** [play] *)
Definition play_route (data : json) : M Response :=
  file <- lift (match data with
                | JObj kvs => Ok (dict_get "file" kvs)
                | _ => Raise AttributeError
                end) ;;
  if truthy file then
    match file with
    | JStr f =>
        ex <- os_path_exists (media_path f) ;;
        if ex then (start (media_path f) ;; ret no_content)
        else ret not_found
    | _ => raise TypeError
    end
  else ret not_found.

(** [pause] *)
Definition pause_route : M Response := pause ;; ret no_content.

(** [stop] *)
Definition stop_route : M Response := stop ;; ret no_content.

Section Routes.

Variable int_of_str : string -> option Z.

(** [int(request.args.get("delta", 0))] *)
Definition delta_arg (delta : option string) : Res Z :=
  match delta with
  | Some d => py_int int_of_str (JStr d)
  | None => py_int int_of_str (JInt 0)
  end.

(** [seek] *)
Definition seek_route (delta : option string) : M Response :=
  d <- lift (delta_arg delta) ;;
  seek d ;; ret no_content.

(** [volume] *)
Definition volume_route (delta : option string) : M Response :=
  d <- lift (delta_arg delta) ;;
  volume int_of_str d ;; ret no_content.

(** [status] *)
Definition status_route : M Response :=
  d <- status int_of_str ;;
  ret (Resp (Some (JObj d)) 200).

End Routes.

(** ** Facts about paths *)

(** A component of a path: kept by [pathlib] and without slash.  Both a file
    name and [..] are components. *)
Definition component (x : string) : bool := kept x && negb (has_slash x).

Lemma string_app_cons (x : Ascii.ascii) (a b : string) :
  String x a +:+ b = String x (a +:+ b).
Proof. reflexivity. Qed.

Lemma string_app_assoc (a b c : string) : (a +:+ b) +:+ c = a +:+ (b +:+ c).
Proof.
  induction a as [|x a IH]; [reflexivity|].
  rewrite !string_app_cons. now rewrite IH.
Qed.

Lemma string_app_nil_r (a : string) : a +:+ "" = a.
Proof.
  induction a as [|x a IH]; [reflexivity|].
  rewrite string_app_cons. now rewrite IH.
Qed.

Lemma split_slash_from_no_slash (cur n : string) :
  has_slash n = false -> split_slash_from cur n = [cur +:+ n].
Proof.
  revert cur. induction n as [|c n IH]; intros cur Hn; simpl in *.
  - now rewrite string_app_nil_r.
  - apply orb_false_iff in Hn as [Hc Hn]. rewrite Hc, (IH _ Hn).
    now rewrite string_app_assoc.
Qed.

Lemma split_slash_from_app (cur p rest : string) :
  has_slash p = false ->
  split_slash_from cur (p +:+ String SLASH rest)
  = (cur +:+ p) :: split_slash_from "" rest.
Proof.
  revert cur. induction p as [|c p IH]; intros cur Hp.
  - change ("" +:+ String SLASH rest) with (String SLASH rest). simpl.
    rewrite ?Ascii.eqb_refl. now rewrite string_app_nil_r.
  - simpl in Hp. apply orb_false_iff in Hp as [Hc Hp].
    rewrite string_app_cons. simpl. rewrite Hc, (IH _ Hp).
    now rewrite string_app_assoc.
Qed.

Lemma component_no_slash (x : string) : component x = true -> has_slash x = false.
Proof. unfold component. intros H. apply andb_true_iff in H as [_ H]. now apply negb_true_iff. Qed.

Lemma component_kept (x : string) : component x = true -> kept x = true.
Proof. unfold component. intros H. now apply andb_true_iff in H as [H _]. Qed.

Lemma split_slash_concat (p : string) (parts : list string) :
  Forall (fun x => component x = true) (p :: parts) ->
  split_slash (String.concat "/" (p :: parts)) = p :: parts.
Proof.
  revert p. induction parts as [|q parts IH]; intros p Hall.
  - inversion Hall as [|? ? Hp _]. simpl. unfold split_slash.
    now rewrite split_slash_from_no_slash by (now apply component_no_slash).
  - inversion Hall as [|? ? Hp Hrest]. unfold split_slash.
    change (String.concat "/" (p :: q :: parts))
      with (p +:+ String SLASH (String.concat "/" (q :: parts))).
    rewrite split_slash_from_app by (now apply component_no_slash).
    simpl. f_equal. now apply IH.
Qed.

Lemma filter_kept_components (parts : list string) :
  Forall (fun x => component x = true) parts -> List.filter kept parts = parts.
Proof.
  induction 1 as [|x parts Hx _ IH]; [reflexivity|].
  simpl. now rewrite (component_kept x Hx), IH.
Qed.

Lemma component_head (p : string) :
  component p = true -> exists c p', p = String c p' /\ Ascii.eqb c SLASH = false.
Proof.
  unfold component, kept. destruct p as [|c p']; [discriminate|].
  intros H. apply andb_true_iff in H as [_ H]. apply negb_true_iff in H.
  simpl in H. apply orb_false_iff in H as [Hc _]. now exists c, p'.
Qed.

Lemma concat_head (p : string) (parts : list string) :
  component p = true ->
  exists c rest, String.concat "/" (p :: parts) = String c rest
                 /\ Ascii.eqb c SLASH = false.
Proof.
  intros Hp. destruct (component_head p Hp) as (c & p' & -> & Hc).
  destruct parts as [|q parts]; simpl; eauto.
Qed.

Lemma path_str_rooted (c : Ascii.ascii) (rest : string) :
  Ascii.eqb c SLASH = false ->
  path_str (String SLASH (String c rest))
  = String SLASH (String.concat "/" (List.filter kept (split_slash (String c rest)))).
Proof.
  intros Hc. unfold path_str. simpl splitroot. rewrite Hc. reflexivity.
Qed.

Lemma posix_join_rel (c : Ascii.ascii) (rest : string) :
  Ascii.eqb c SLASH = false ->
  posix_join MEDIA_DIR (String c rest) = "/media/" +:+ String c rest.
Proof.
  intros Hc. unfold posix_join.
  change (String.prefix "/" (String c rest))
    with (if Ascii.ascii_dec SLASH c then String.prefix "" rest else false).
  destruct (Ascii.ascii_dec SLASH c) as [<-|Hne]; [discriminate Hc | reflexivity].
Qed.

Lemma posix_join_abs (f : string) :
  posix_join MEDIA_DIR (String SLASH f) = String SLASH f.
Proof.
  unfold posix_join.
  change (String.prefix "/" (String SLASH f))
    with (if Ascii.ascii_dec SLASH SLASH then String.prefix "" f else false).
  destruct (Ascii.ascii_dec SLASH SLASH) as [_|Hne]; [|congruence].
  now destruct f.
Qed.

Lemma split_media (f : string) :
  split_slash ("media/" +:+ f) = "media" :: split_slash f.
Proof. reflexivity. Qed.

Lemma path_str_media (f : string) :
  path_str ("/media/" +:+ f)
  = String SLASH (String.concat "/" (List.filter kept (split_slash ("media/" +:+ f)))).
Proof.
  exact (path_str_rooted (Ascii.ascii_of_nat 109) ("edia/" +:+ f) eq_refl).
Qed.

(** [MEDIA_DIR / file] does not confine [file] to the media directory: a
    path of components is kept as it is when it starts with a slash, and is
    put under [/media] with its [..] components in place when it does not. *)
Lemma media_path_components (p : string) (parts : list string) :
  Forall (fun x => component x = true) (p :: parts) ->
  media_path (String.concat "/" (p :: parts))
  = "/media/" +:+ String.concat "/" (p :: parts)
  /\ media_path ("/" +:+ String.concat "/" (p :: parts))
     = "/" +:+ String.concat "/" (p :: parts).
Proof.
  intros Hall. pose proof (split_slash_concat p parts Hall) as Hsplit.
  pose proof (filter_kept_components _ Hall) as Hkept.
  inversion Hall as [|? ? Hp _].
  destruct (concat_head p parts Hp) as (c & rest & Hf & Hc).
  unfold media_path. split.
  - rewrite Hf at 1. rewrite (posix_join_rel c rest Hc), <- Hf.
    rewrite path_str_media, split_media, Hsplit.
    change (List.filter kept ("media" :: p :: parts))
      with ("media" :: List.filter kept (p :: parts)).
    rewrite Hkept. reflexivity.
  - change ("/" +:+ String.concat "/" (p :: parts))
      with (String SLASH (String.concat "/" (p :: parts))).
    rewrite posix_join_abs. rewrite Hf at 1.
    rewrite (path_str_rooted c rest Hc), <- Hf, Hsplit, Hkept. reflexivity.
Qed.

Lemma is_name_component (n : string) : is_name n = true -> component n = true.
Proof.
  unfold is_name, component. intros H. apply andb_true_iff in H as [H Hs].
  apply andb_true_iff in H as [Hk _]. now rewrite Hk, Hs.
Qed.

Lemma media_path_name (n : string) :
  is_name n = true -> media_path n = "/media/" +:+ n.
Proof.
  intros Hn. apply (media_path_components n []).
  constructor; [now apply is_name_component | constructor].
Qed.

(** ** Facts about the listing *)

Lemma strip_prefix_Some (pre p n : string) :
  strip_prefix pre p = Some n <-> p = pre +:+ n.
Proof.
  revert p. induction pre as [|c pre IH]; intros p.
  - change ("" +:+ n) with n. simpl. split; [now intros [= ->] | now intros ->].
  - rewrite string_app_cons. destruct p as [|d p]; simpl; [split; discriminate|].
    destruct (Ascii.eqb_spec c d) as [->|Hne].
    + rewrite IH. split; [now intros -> | now intros [= ->]].
    + split; [discriminate | intros [= Hcd _]; congruence].
Qed.

Lemma entry_name_Some (p n : string) :
  entry_name p = Some n <-> p = "/media/" +:+ n /\ is_name n = true.
Proof.
  unfold entry_name.
  change (MEDIA_DIR +:+ "/") with "/media/".
  destruct (strip_prefix "/media/" p) as [m|] eqn:Hs.
  - apply strip_prefix_Some in Hs. subst p.
    destruct (is_name m) eqn:Hm.
    + split; [intros [= ->]; now split|].
      intros [Heq _]. apply strip_prefix_Some in Heq.
      rewrite (proj2 (strip_prefix_Some "/media/" ("/media/" +:+ m) m) eq_refl) in Heq.
      exact Heq.
    + split; [discriminate|]. intros [Heq Hn].
      apply strip_prefix_Some in Heq.
      rewrite (proj2 (strip_prefix_Some "/media/" ("/media/" +:+ m) m) eq_refl) in Heq.
      inversion Heq; subst. congruence.
  - split; [discriminate|]. intros [Heq _]. apply strip_prefix_Some in Heq. congruence.
Qed.


#[local] Instance str_le_total : Total str_le.
Proof. intros a b. apply String.leb_total. Qed.

Lemma glob_mkv_spec (s : State) (n : string) :
  n ∈ glob_mkv s <->
  "/media/" +:+ n ∈ listed s /\ is_name n = true /\ ends_with ".mkv" n = true.
Proof.
  unfold glob_mkv. rewrite list_elem_of_In, filter_In, <- list_elem_of_In.
  rewrite list_elem_of_omap. split.
  - intros [(p & Hp & He) Hm]. apply entry_name_Some in He as [-> Hn].
    apply elem_of_elements in Hp. auto.
  - intros (Hp & Hn & Hm). split; [|exact Hm].
    exists ("/media/" +:+ n). split; [now apply elem_of_elements|].
    now apply entry_name_Some.
Qed.

(** ** The handlers *)




(** What [play] does with a path it accepts. *)
Definition played (path : string) : M Response := start path ;; ret no_content.

Lemma start_launch_args (media : string) (s : State) (u : unit) (s0 : State) :
  stop s = (Ok u, s0) ->
  exists p, procs (snd (start media s)) !! length (procs s0) = Some p
            /\ args p = launch_cmd (socket_path s) media.
Proof.
  intros Hstop.
  assert (socket_path s0 = socket_path s) as Hpath
    by (rewrite <- (stop_keeps_path s); now rewrite Hstop).
  destruct (start_polls media s u s0 Hstop) as (b & Hw & _).
  pose proof (calm_wait_socket 50 (launched media s0)) as Hm.
  rewrite Hw in Hm. cbn [snd] in Hm.
  assert (procs (launched media s0) !! length (procs s0)
          = Some {| args := launch_cmd (socket_path s) media; returncode := None |})
    as Hnew.
  { rewrite <- Hpath. unfold launched. cbn [procs set_proc note_live set_procs].
    now rewrite lookup_app_r, Nat.sub_diag by lia. }
  destruct (Forall2_lookup_l _ _ _ _ _ (mv_procs _ _ Hm) Hnew) as (p & Hp & Hargs & _).
  exists p. now split.
Qed.

(** [/api/play] with a [file] whose path exists calls [start] on
    [str(MEDIA_DIR / file)] and answers 204 exactly when [start] returns; an
    error of [start] leaves the handler as it is.  Once [start] is past its
    opening [stop], the player is launched on that path, the last item of its
    command line. *)
Theorem play_starts_path (kvs : list (string * json)) (f : string) (s : State) :
  dict_get "file" kvs = JStr f -> f <> "" -> media_path f ∈ files s ->
  play_route (JObj kvs) s = played (media_path f) s
  /\ (fst (play_route (JObj kvs) s) = Ok no_content <->
      fst (start (media_path f) s) = Ok tt)
  /\ (forall e, fst (play_route (JObj kvs) s) = Raise e <->
        fst (start (media_path f) s) = Raise e)
  /\ (forall u s0, stop s = (Ok u, s0) ->
        exists p, procs (snd (play_route (JObj kvs) s)) !! length (procs s0) = Some p
                  /\ args p = launch_cmd (socket_path s) (media_path f)
                  /\ last (args p) = Some (media_path f)).
Proof.
  intros Hf Hne Hex.
  assert (play_route (JObj kvs) s = played (media_path f) s) as Heq.
  { unfold play_route, bind at 1, lift. rewrite Hf.
    assert (truthy (JStr f) = true) as ->
      by (simpl; now rewrite (proj2 (String.eqb_neq f "") Hne)).
    unfold bind at 1. prims. now rewrite bool_decide_eq_true_2 by exact Hex. }
  split; [exact Heq|]. rewrite Heq. unfold played, bind.
  split; [|split].
  - destruct (start (media_path f) s) as [[[]|e] s']; simpl;
      split; intros H; inversion H; reflexivity.
  - intros e. destruct (start (media_path f) s) as [[[]|e'] s']; simpl;
      split; intros H; inversion H; reflexivity.
  - intros u s0 Hstop.
    destruct (start_launch_args (media_path f) s u s0 Hstop) as (p & Hp & Hargs).
    exists p. split; [|split; [exact Hargs | now rewrite Hargs]].
    now destruct (start (media_path f) s) as [[[]|e] s'].
Qed.

Lemma play_starts_path_witness :
  fst (play_route (JObj [("file", JStr "movie.mkv")])
         (MPVController {[ "/media/movie.mkv" ]} movie_script))
  = Ok no_content.
Proof.
  destruct (play_starts_path [("file", JStr "movie.mkv")] "movie.mkv"
              (MPVController {[ "/media/movie.mkv" ]} movie_script))
    as (_ & Hiff & _).
  - reflexivity.
  - discriminate.
  - apply present_by_decide. vm_compute. reflexivity.
  - apply Hiff. vm_compute. reflexivity.
Defined.

Lemma play_route_accepts (kvs : list (string * json)) (f : string) (s : State) :
  dict_get "file" kvs = JStr f -> f <> "" -> media_path f ∈ files s ->
  play_route (JObj kvs) s = played (media_path f) s.
Proof.
  intros Hf Hne Hex. unfold play_route, bind at 1, lift. rewrite Hf.
  assert (truthy (JStr f) = true) as ->
    by (simpl; now rewrite (proj2 (String.eqb_neq f "") Hne)).
  unfold bind at 1. prims. now rewrite bool_decide_eq_true_2 by exact Hex.
Qed.

(** What [/api/play] does with a name that [/api/movies] lists: it checks
    the path of that entry under the media directory.  When the path exists
    the handler calls [start] on it and does not answer 404.  When the entry
    is a link to nothing, which the listing shows all the same, the handler
    answers 404 and touches nothing. *)
Theorem listed_movie_plays (s : State) (n : string) :
  n ∈ merge_sort str_le (glob_mkv s) ->
  media_path n = "/media/" +:+ n
  /\ ("/media/" +:+ n ∈ files s ->
      play_route (JObj [("file", JStr n)]) s = played ("/media/" +:+ n) s
      /\ fst (play_route (JObj [("file", JStr n)]) s) <> Ok not_found)
  /\ ("/media/" +:+ n ∉ files s ->
      "/media/" +:+ n ∈ dangling s
      /\ play_route (JObj [("file", JStr n)]) s = (Ok not_found, s)).
Proof.
  intros Hn. rewrite merge_sort_Permutation in Hn.
  apply glob_mkv_spec in Hn as (Hp & Hname & _).
  assert (n <> "") as Hne by (intros ->; discriminate Hname).
  pose proof (media_path_name n Hname) as Hpath.
  split; [exact Hpath|]. split.
  - intros Hex.
    assert (play_route (JObj [("file", JStr n)]) s = played ("/media/" +:+ n) s) as Heq.
    { rewrite <- Hpath in Hex.
      rewrite (play_route_accepts [("file", JStr n)] n s eq_refl Hne Hex).
      now rewrite Hpath. }
    split; [exact Heq|]. rewrite Heq. unfold played, bind.
    destruct (start ("/media/" +:+ n) s) as [[[]|e] s']; simpl; discriminate.
  - intros Hno. split.
    + unfold listed in Hp. apply elem_of_union in Hp as [Hf|Hd]; [contradiction | exact Hd].
    + unfold play_route, bind, lift. cbn [dict_get String.eqb Ascii.eqb Bool.eqb].
      assert (truthy (JStr n) = true) as ->
        by (simpl; now rewrite (proj2 (String.eqb_neq n "") Hne)).
      prims. rewrite Hpath. now rewrite bool_decide_eq_false_2 by exact Hno.
Qed.

Lemma listed_movie_plays_witness :
  "lost.mkv" ∈ merge_sort str_le
                 (glob_mkv (set_dangling {[ "/media/lost.mkv" ]} (MPVController ∅ [])))
  /\ play_route (JObj [("file", JStr "lost.mkv")])
       (set_dangling {[ "/media/lost.mkv" ]} (MPVController ∅ []))
     = (Ok not_found, set_dangling {[ "/media/lost.mkv" ]} (MPVController ∅ [])).
Proof.
  assert ("lost.mkv" ∈ merge_sort str_le
            (glob_mkv (set_dangling {[ "/media/lost.mkv" ]} (MPVController ∅ []))))
    as Hin.
  { apply (bool_decide_eq_true_1
             ("lost.mkv" ∈ merge_sort str_le
                (glob_mkv (set_dangling {[ "/media/lost.mkv" ]} (MPVController ∅ []))))).
    vm_compute. reflexivity. }
  split; [exact Hin|].
  apply (proj2 (proj2 (listed_movie_plays _ "lost.mkv" Hin))).
  apply absent_by_decide. vm_compute. reflexivity.
Defined.

(** [/api/play] is not confined to the media directory.  A [file] that is an
    absolute path of components is played as it is, wherever it lies; a
    relative one is put under [/media] with its [..] components kept, so that
    it can lead out again.  In both cases only the existence of the path is
    checked. *)
Theorem play_is_not_confined (s : State) (p : string) (parts : list string) :
  Forall (fun x => component x = true) (p :: parts) ->
  ("/" +:+ String.concat "/" (p :: parts) ∈ files s ->
   play_route (JObj [("file", JStr ("/" +:+ String.concat "/" (p :: parts)))]) s
   = played ("/" +:+ String.concat "/" (p :: parts)) s)
  /\ ("/media/" +:+ String.concat "/" (p :: parts) ∈ files s ->
      play_route (JObj [("file", JStr (String.concat "/" (p :: parts)))]) s
      = played ("/media/" +:+ String.concat "/" (p :: parts)) s).
Proof.
  intros Hall. destruct (media_path_components p parts Hall) as (Hrel & Habs).
  inversion Hall as [|? ? Hp _].
  destruct (concat_head p parts Hp) as (c & rest & Hf & Hc).
  split; intros Hex.
  - rewrite (play_route_accepts
               [("file", JStr ("/" +:+ String.concat "/" (p :: parts)))]
               ("/" +:+ String.concat "/" (p :: parts)) s eq_refl);
      [now rewrite Habs | discriminate | now rewrite Habs].
  - rewrite (play_route_accepts
               [("file", JStr (String.concat "/" (p :: parts)))]
               (String.concat "/" (p :: parts)) s eq_refl);
      [now rewrite Hrel | rewrite Hf; discriminate | now rewrite Hrel].
Qed.

Lemma play_is_not_confined_witness :
  map args (procs (snd (play_route (JObj [("file", JStr "/etc/passwd")])
                          (MPVController {[ "/etc/passwd" ]} movie_script))))
  = [launch_cmd MPV_SOCKET "/etc/passwd"].
Proof.
  assert (play_route (JObj [("file", JStr "/etc/passwd")])
            (MPVController {[ "/etc/passwd" ]} movie_script)
          = played "/etc/passwd" (MPVController {[ "/etc/passwd" ]} movie_script)) as H.
  { apply (proj1 (play_is_not_confined (MPVController {[ "/etc/passwd" ]} movie_script)
                    "etc" ["passwd"] ltac:(repeat constructor))).
    apply present_by_decide. vm_compute. reflexivity. }
  rewrite H. vm_compute. reflexivity.
Defined.

(** The handlers of [/api/seek] and [/api/volume] take a missing [delta] for
    zero and hand a [delta] that reads as an integer to the controller; one
    that does not raises ValueError before the player is contacted, with
    nothing sent and nothing changed. *)
Theorem delta_is_parsed_first (int_of_str : string -> option Z)
    (delta : option string) (s : State) :
  (delta = None ->
     seek_route int_of_str delta s = (seek 0 ;; ret no_content) s
     /\ volume_route int_of_str delta s = (volume int_of_str 0 ;; ret no_content) s)
  /\ (forall d z, delta = Some d -> int_of_str d = Some z ->
        seek_route int_of_str delta s = (seek z ;; ret no_content) s
        /\ volume_route int_of_str delta s = (volume int_of_str z ;; ret no_content) s)
  /\ (forall d, delta = Some d -> int_of_str d = None ->
        seek_route int_of_str delta s = (Raise ValueError, s)
        /\ volume_route int_of_str delta s = (Raise ValueError, s)).
Proof.
  split; [|split].
  - intros ->. split; reflexivity.
  - intros d z -> Hz. unfold seek_route, volume_route, bind at 1 3, lift, delta_arg.
    simpl. rewrite Hz. split; reflexivity.
  - intros d -> Hz. unfold seek_route, volume_route, bind at 1 3, lift, delta_arg.
    simpl. rewrite Hz. split; reflexivity.
Qed.

Lemma delta_is_parsed_first_witness :
  seek_route plain_int_of_str (Some "ten") playing_movie = (Raise ValueError, playing_movie).
Proof.
  apply (proj2 (proj2 (delta_is_parsed_first plain_int_of_str (Some "ten") playing_movie))
           "ten" eq_refl).
  reflexivity.
Defined.

(** ** The file name status reports *)

Lemma basename_from_no_slash (acc n : string) :
  has_slash n = false -> basename_from acc n = acc +:+ n.
Proof.
  revert acc. induction n as [|c n IH]; intros acc Hn; simpl in *.
  - now rewrite string_app_nil_r.
  - apply orb_false_iff in Hn as [Hc Hn]. fold SLASH. rewrite Hc, (IH _ Hn).
    now rewrite string_app_assoc.
Qed.

Lemma basename_from_dir (acc d n : string) :
  has_slash n = false -> basename_from acc (d +:+ String SLASH n) = n.
Proof.
  intros Hn. revert acc. induction d as [|c d IH]; intros acc.
  - change ("" +:+ String SLASH n) with (String SLASH n). simpl.
    now rewrite basename_from_no_slash.
  - rewrite string_app_cons. simpl. destruct (Ascii.eqb c _); apply IH.
Qed.

Lemma basename_from_no_slash_result (acc p : string) :
  has_slash acc = false -> has_slash (basename_from acc p) = false.
Proof.
  revert acc. induction p as [|c p IH]; intros acc Hacc; simpl; [exact Hacc|].
  fold SLASH. destruct (Ascii.eqb c SLASH) eqn:Hc; [now apply IH|].
  apply IH. clear IH. induction acc as [|x acc IHa].
  - simpl. now rewrite Hc.
  - rewrite string_app_cons. simpl in *. apply orb_false_iff in Hacc as [Hx Hacc].
    now rewrite Hx, IHa.
Qed.

(** The [file] of a status snapshot is the last component of the path the
    player reports: for a path [dir/name] it is [name], so that a movie
    started through [/api/play] shows under the name [/api/movies] listed;
    it never contains a slash. *)
Theorem status_file_is_last_component (int_of_str : string -> option Z)
    (s s1 s2 s3 : State) (path : string) (v2 v3 : json) (vol : Z) :
  get "path" s = (Ok (JStr path), s1) -> path <> "" ->
  get "pause" s1 = (Ok v2, s2) ->
  get "volume" s2 = (Ok v3, s3) ->
  py_int int_of_str (py_or v3 (JInt 0)) = Ok vol ->
  status_snapshot int_of_str s
  = (Ok [("running", JBool true); ("file", JStr (basename path));
         ("paused", JBool (truthy v2)); ("volume", JInt vol)], s3)
  /\ has_slash (basename path) = false
  /\ (forall dir name, path = dir +:+ "/" +:+ name -> has_slash name = false ->
        basename path = name).
Proof.
  intros H1 Hne H2 H3 Hvol. split; [|split].
  - unfold status_snapshot, bind, py_or. rewrite H1.
    assert (truthy (JStr path) = true) as ->
      by (simpl; now rewrite (proj2 (String.eqb_neq path "") Hne)).
    simpl. rewrite H2, H3. unfold py_or in Hvol. unfold lift. now rewrite Hvol.
  - now apply basename_from_no_slash_result.
  - intros dir name -> Hn. unfold basename.
    change ("/" +:+ name) with (String SLASH name). now apply basename_from_dir.
Qed.

Lemma status_file_is_last_component_witness :
  fst (status_snapshot plain_int_of_str movie_over)
  = Ok [("running", JBool true); ("file", JStr (basename "/media/movie.mkv"));
        ("paused", JBool (truthy (JBool false))); ("volume", JInt 100)].
Proof.
  rewrite (proj1 (status_file_is_last_component plain_int_of_str movie_over
             (snd (get "path" movie_over))
             (snd (get "pause" (snd (get "path" movie_over))))
             (snd (get "volume" (snd (get "pause" (snd (get "path" movie_over))))))
             "/media/movie.mkv" (JBool false) (JFloat (S754_finite false 25 2)) 100
             ltac:(vm_compute; reflexivity) ltac:(discriminate)
             ltac:(vm_compute; reflexivity) ltac:(vm_compute; reflexivity)
             ltac:(reflexivity))).
  reflexivity.
Defined.

(** ** Sample runs *)

Lemma controls_only_let_ticks_pass_witness :
  exists k, (k <= 3)%nat
    /\ same_world (snd (status plain_int_of_str movie_over)) (sleeps k movie_over).
Proof.
  exact (proj2 (proj2 (proj2 (controls_only_let_ticks_pass plain_int_of_str 0)))
           movie_over).
Defined.

Lemma status_only_reads_witness :
  exists l,
    outbox (snd (status plain_int_of_str movie_over)) = (outbox movie_over ++ l)%list
    /\ l `prefix_of` [get_payload "path"; get_payload "pause"; get_payload "volume"].
Proof.
  destruct (status_only_reads plain_int_of_str movie_over) as (l & Ho & Hp & _).
  exists l. split; [exact Ho | exact Hp].
Defined.

Lemma stop_is_bounded_witness :
  proc (snd (stop playing_movie)) = None
  /\ running (snd (stop playing_movie)) = false.
Proof.
  destruct (proj2 (proj2 (proj2 (proj2 (stop_is_bounded playing_movie)))) tt)
    as (Hn & _ & Hr).
  - vm_compute. reflexivity.
  - split; [exact Hn | exact Hr].
Defined.

